(** * Ranking metrics of [xib.ignite.metrics]

    A shallow embedding of [src/xib/ignite/metrics.py]: the pure functions
    [mean_average_precision], [precision_at] and [recall_at], the four metric
    classes built on them and [BatchMetric.attach].

    Numbers.  Tensor entries of floating type are modelled by [float]: exact
    rationals extended with NaN and the two infinities.  Rounding is not
    modelled and the two IEEE zeros are identified; every statement below
    about a numeric value is a statement about this exact arithmetic.
    Relevance entries are integers ([Z]), cast to [float] where the source
    calls [.float()].

    Failure.  A Python exception is a [Raise e] in the [res] monad. *)

From Stdlib Require Import ZArith QArith Qreduction Lia Lqa Bool List.
From Stdlib Require String DecimalString DecimalZ.
Import String.StringSyntax.
Delimit Scope string_scope with string.
From Stdlib Require Import Permutation Sorted.
Import ListNotations.
Local Open Scope Z_scope.

(** ** Exceptions and results *)

Inductive exn : Type := ValueError | IndexError | RuntimeError.

Inductive res (A : Type) : Type :=
| Ok (a : A)
| Raise (e : exn).
Arguments Ok {A} a.
Arguments Raise {A} e.

Definition bind {A B : Type} (m : res A) (f : A -> res B) : res B :=
  match m with
  | Ok a => f a
  | Raise e => Raise e
  end.

Notation "x <- m ;; k" := (bind m (fun x => k))
  (at level 61, m at next level, right associativity).

Definition raises {A : Type} (m : res A) : Prop := exists e, m = Raise e.

(** ** Floating values *)

Inductive float : Type :=
| NaN
| PInf
| NInf
| Fin (q : Q).

Definition of_Z (z : Z) : float := Fin (inject_Z z).
Definition of_nat (n : nat) : float := of_Z (Z.of_nat n).

Definition Qsign (q : Q) : comparison := (Qnum q ?= 0).

Definition is_nan (x : float) : bool :=
  match x with NaN => true | _ => false end.

Definition fopp (x : float) : float :=
  match x with
  | NaN => NaN
  | PInf => NInf
  | NInf => PInf
  | Fin a => Fin (Qred (- a))
  end.

Definition fadd (x y : float) : float :=
  match x, y with
  | NaN, _ | _, NaN => NaN
  | PInf, NInf | NInf, PInf => NaN
  | PInf, _ | _, PInf => PInf
  | NInf, _ | _, NInf => NInf
  | Fin a, Fin b => Fin (Qred (a + b))
  end.

Definition fdiv (x y : float) : float :=
  match x, y with
  | NaN, _ | _, NaN => NaN
  | Fin a, Fin b =>
      match Qsign b with
      | Eq => match Qsign a with Eq => NaN | Gt => PInf | Lt => NInf end
      | _ => Fin (Qred (a / b))
      end
  | Fin _, _ => Fin 0
  | PInf, Fin b => match Qsign b with Lt => NInf | _ => PInf end
  | NInf, Fin b => match Qsign b with Lt => PInf | _ => NInf end
  | _, _ => NaN
  end.

(** IEEE [<=]: false as soon as one side is NaN. *)
Definition fle (x y : float) : bool :=
  match x, y with
  | NaN, _ | _, NaN => false
  | NInf, _ | _, PInf => true
  | Fin a, Fin b => Qle_bool a b
  | _, _ => false
  end.

(** The order a sort uses: NaN above everything, then +inf, the finite
    values, -inf.  [sort_gt x y] is "x strictly above y". *)
Definition sort_gt (x y : float) : bool :=
  match x, y with
  | _, NaN => false
  | NaN, _ => true
  | _, PInf => false
  | PInf, _ => true
  | NInf, _ => false
  | Fin _, NInf => true
  | Fin a, Fin b => negb (Qle_bool a b)
  end.

(** [tensor.sum()] and [tensor.mean()] over a vector: the sum starts from 0,
    the mean of an empty vector is 0/0. *)
Definition fsum (l : list float) : float := fold_left fadd l (Fin 0).
Definition fmean (l : list float) : float := fdiv (fsum l) (of_nat (length l)).

(** ** Python dictionaries with integer keys, in insertion order *)

Definition dict (V : Type) : Type := list (Z * V).

Fixpoint dict_set {V : Type} (k : Z) (v : V) (d : dict V) : dict V :=
  match d with
  | [] => [(k, v)]
  | (k', v') :: d' =>
      if k =? k' then (k, v) :: d' else (k', v') :: dict_set k v d'
  end.

Fixpoint dict_get {V : Type} (k : Z) (d : dict V) : option V :=
  match d with
  | [] => None
  | (k', v') :: d' => if k =? k' then Some v' else dict_get k d'
  end.

(** [d.update(other)] *)
Definition dict_update {V : Type} (d other : dict V) : dict V :=
  fold_left (fun acc kv => dict_set (fst kv) (snd kv) acc) other d.

(** ** Two-dimensional tensors

    A tensor knows its number of columns even when it has no row; [wf] says
    that the rows agree with it. *)

Record Tensor (A : Type) : Type := mkTensor {
  ncols : nat;
  rows : list (list A)
}.
Arguments mkTensor {A} ncols rows.
Arguments ncols {A} t.
Arguments rows {A} t.

Definition nrows {A : Type} (t : Tensor A) : nat := length (rows t).
Definition shape {A : Type} (t : Tensor A) : nat * nat := (nrows t, ncols t).
Definition wf {A : Type} (t : Tensor A) : Prop :=
  Forall (fun r => length r = ncols t) (rows t).

(** Python's [max] over a sequence of ints. *)
Definition py_max (l : list Z) : res Z :=
  match l with
  | [] => Raise ValueError
  | x :: l' => Ok (fold_left Z.max l' x)
  end.

(** Index [j] into a dimension of size [n]: negative indices count from the
    end, anything else out of range is an IndexError. *)
Definition norm_index (n : nat) (j : Z) : res nat :=
  if (0 <=? j) && (j <? Z.of_nat n) then Ok (Z.to_nat j)
  else if (- Z.of_nat n <=? j) && (j <? 0) then Ok (Z.to_nat (Z.of_nat n + j))
  else Raise IndexError.

(** [t[:, j]] *)
Definition select_col (t : Tensor float) (j : Z) : res (list float) :=
  i <- norm_index (ncols t) j ;;
  Ok (map (fun r => nth i r NaN) (rows t)).

(** The stop of the slice [:m] on a dimension of size [n]. *)
Definition slice_stop (n : nat) (m : Z) : nat :=
  if m <? 0 then Z.to_nat (Z.max 0 (Z.of_nat n + m))
  else Z.to_nat (Z.min (Z.of_nat n) m).

(** [t[:, :m]] *)
Definition slice_cols {A : Type} (t : Tensor A) (m : Z) : Tensor A :=
  let k := slice_stop (ncols t) m in
  mkTensor k (map (firstn k) (rows t)).

(** ** torch.argsort(scores, dim=1, descending=True) *)

Fixpoint insert_desc (x : nat * float) (l : list (nat * float))
  : list (nat * float) :=
  match l with
  | [] => [x]
  | y :: l' =>
      if sort_gt (snd y) (snd x) then y :: insert_desc x l' else x :: l
  end.

Definition sort_desc (l : list (nat * float)) : list (nat * float) :=
  fold_right insert_desc [] l.

Definition enumerate (row : list float) : list (nat * float) :=
  combine (seq 0 (length row)) row.

(** Modelled from the spec: [torch.argsort] is library code outside the
    repository.  Following the spec's Rank Permutation, a row is sorted by
    score descending with a stable sort, so that among equal scores the
    lower class index comes first.  The source does not pass [stable=True],
    so the order the library gives to equal scores is not fixed by it: what
    is stated about tied scores is stated below over an arbitrary ranking
    (the [_by] functions), of which this one is an instance. *)
Definition argsort_row (row : list float) : list nat :=
  map fst (sort_desc (enumerate row)).

Definition argsort (scores : Tensor float) : Tensor nat :=
  mkTensor (ncols scores) (map argsort_row (rows scores)).

(** ** torch.gather(input, index=..., dim=1)

    The index may have fewer rows than the input, never more; every index
    must address a column of the input.  The output has the index's shape. *)

Definition gather_row (r : list Z) (ix : list nat) : list Z :=
  map (fun j => nth j r 0) ix.

Fixpoint gather_rows (input : list (list Z)) (index : list (list nat))
  : list (list Z) :=
  match index, input with
  | ix :: index', r :: input' => gather_row r ix :: gather_rows input' index'
  | _, _ => []
  end.

Definition gather (input : Tensor Z) (index : Tensor nat) : res (Tensor Z) :=
  if (nrows input <? nrows index)%nat then Raise RuntimeError
  else if forallb (forallb (fun j => (j <? ncols input)%nat)) (rows index)
  then Ok (mkTensor (ncols index) (gather_rows (rows input) (rows index)))
  else Raise RuntimeError.

(** [t.cumsum(dim=1)] and [.float()] *)

Fixpoint cumsum_from (acc : Z) (r : list Z) : list Z :=
  match r with
  | [] => []
  | x :: r' => (acc + x) :: cumsum_from (acc + x) r'
  end.

Definition cumsum_row (r : list Z) : list Z := cumsum_from 0 r.

Definition cumsum_float (t : Tensor Z) : Tensor float :=
  mkTensor (ncols t) (map (fun r => map of_Z (cumsum_row r)) (rows t)).

(** ** precision_at *)

Fixpoint precision_loop (cumsum : Tensor float) (sizes : list Z)
  (result : dict float) : res (dict float) :=
  match sizes with
  | [] => Ok result
  | s :: sizes' =>
      col <- select_col cumsum (s - 1) ;;
      precision_loop cumsum sizes'
        (dict_set s (fmean (map (fun x => fdiv x (of_Z s)) col)) result)
  end.

Definition annotations_of_top_max_s (annotations : Tensor Z)
  (scores : Tensor float) (sizes : list Z) : res (Tensor Z) :=
  let sorted_labels := argsort scores in
  m <- py_max sizes ;;
  gather annotations (slice_cols sorted_labels m).

Definition precision_at (annotations : Tensor Z) (scores : Tensor float)
  (sizes : list Z) : res (dict float) :=
  top <- annotations_of_top_max_s annotations scores sizes ;;
  let cumsum := cumsum_float top in
  precision_loop cumsum sizes [].

(** ** recall_at *)

(** [annotations.sum(dim=1, keepdims=True)]: one count per row. *)
Definition num_rel (annotations : Tensor Z) : list Z :=
  map (fun r => fold_left Z.add r 0) (rows annotations).

(** [cumsum / num_rel]: an (n, m) tensor divided by an (n', 1) tensor, with
    torch's broadcasting of the sample dimension. *)
Definition div_rows (cumsum : Tensor float) (counts : list Z)
  : res (Tensor float) :=
  let divide r c := map (fun x => fdiv x (of_Z c)) r in
  if (nrows cumsum =? length counts)%nat then
    Ok (mkTensor (ncols cumsum)
          (map (fun rc => divide (fst rc) (snd rc))
               (combine (rows cumsum) counts)))
  else
    match rows cumsum, counts with
    | [r], _ => Ok (mkTensor (ncols cumsum) (map (divide r) counts))
    | _, [c] =>
        Ok (mkTensor (ncols cumsum) (map (fun r => divide r c) (rows cumsum)))
    | _, _ => Raise RuntimeError
    end.

Definition recall_matrix (annotations : Tensor Z) (scores : Tensor float)
  (sizes : list Z) : res (Tensor float) :=
  top <- annotations_of_top_max_s annotations scores sizes ;;
  let cumsum := cumsum_float top in
  div_rows cumsum (num_rel annotations).

Fixpoint recall_loop (recall : Tensor float) (sizes : list Z)
  (result : dict float) : res (dict float) :=
  match sizes with
  | [] => Ok result
  | s :: sizes' =>
      col <- select_col recall (s - 1) ;;
      recall_loop recall sizes' (dict_set s (fmean col) result)
  end.

Definition recall_at (annotations : Tensor Z) (scores : Tensor float)
  (sizes : list Z) : res (dict float) :=
  recall <- recall_matrix annotations scores sizes ;;
  recall_loop recall sizes [].


(** ** mean_average_precision *)

Definition column {A : Type} (d : A) (c : nat) (t : Tensor A) : list A :=
  map (fun r => nth c r d) (rows t).

(** Sum of the precisions at the ranks where a relevant sample is retrieved;
    [rank] is the 1-based rank of the head of [ranked], [hits] the number of
    relevant samples above it. *)
Fixpoint precision_sum (ranked : list Z) (rank hits : Z) (acc : float)
  : float :=
  match ranked with
  | [] => acc
  | y :: ranked' =>
      if y =? 0 then precision_sum ranked' (rank + 1) hits acc
      else precision_sum ranked' (rank + 1) (hits + 1)
             (fadd acc (fdiv (of_Z (hits + 1)) (of_Z rank)))
  end.

(** Modelled from the spec: the Average Precision of one class is computed by
    [sklearn.metrics.average_precision_score], library code outside the
    repository.  Following the spec, the samples are ranked by the class's
    scores, the precision is taken at every rank where a relevant sample is
    retrieved and averaged over the relevant samples; with no relevant
    sample the quotient is 0/0, the NaN that the comment in the source
    expects (releases of the library differ on this value; what is stated
    about it is stated below over an arbitrary per-class function,
    [mean_average_precision_by]). *)
Definition average_precision (y_true : list Z) (y_score : list float)
  : float :=
  let ranked := map (fun i => nth i y_true 0) (argsort_row y_score) in
  let positives := Z.of_nat (length (filter (fun y => negb (y =? 0)) y_true)) in
  fdiv (precision_sum ranked 1 0 (Fin 0)) (of_Z positives).

Fixpoint average_precision_classes (y_true : Tensor Z) (y_score : Tensor float)
  (classes : list nat) : res (list float) :=
  match classes with
  | [] => Ok []
  | c :: classes' =>
      if (c <? ncols y_true)%nat then
        aps <- average_precision_classes y_true y_score classes' ;;
        Ok (average_precision (column 0 c y_true) (column NaN c y_score) :: aps)
      else Raise IndexError
  end.

(** Modelled from the spec: [average_precision_score(..., average=None)]
    returns one Average Precision per class column of the scores, after its
    input validation: a ValueError when there is no sample, and when the two
    arguments do not have the same number of samples. *)
Definition average_precision_score (y_true : Tensor Z) (y_score : Tensor float)
  : res (list float) :=
  if (nrows y_true =? 0)%nat then Raise ValueError
  else if (nrows y_true =? nrows y_score)%nat
  then average_precision_classes y_true y_score (seq 0 (ncols y_score))
  else Raise ValueError.

(** [np.nanmean]: NaN entries are replaced by 0 before summing and the sum is
    divided by the number of entries that are not NaN. *)
Definition nanmean (a : list float) : float :=
  let arr := map (fun x => if is_nan x then Fin 0 else x) a in
  let cnt := length (filter (fun x => negb (is_nan x)) a) in
  fdiv (fsum arr) (of_nat cnt).

Definition mean_average_precision (annotations : Tensor Z)
  (scores : Tensor float) : res float :=
  average_precisions <- average_precision_score annotations scores ;;
  Ok (nanmean average_precisions).


(** ** torch.cat(tensors, dim=0) and sorted(sizes) *)

Definition cat {A : Type} (ts : list (Tensor A)) : res (Tensor A) :=
  match ts with
  | [] => Raise RuntimeError
  | t :: _ =>
      if forallb (fun u => (ncols u =? ncols t)%nat) ts
      then Ok (mkTensor (ncols t) (concat (map rows ts)))
      else Raise RuntimeError
  end.

Fixpoint insert_asc (x : Z) (l : list Z) : list Z :=
  match l with
  | [] => [x]
  | y :: l' => if y <? x then y :: insert_asc x l' else x :: l
  end.

Definition sorted (l : list Z) : list Z := fold_right insert_asc [] l.

(** ** The metric classes

    Each class is a module; its instance state is the record [t].  The base
    class [ignite.metrics.Metric] calls [reset] at the end of [__init__]. *)

Definition Output : Type := (Tensor Z * Tensor float)%type.

Module MeanAveragePrecisionBatch.
Record t : Type := mk { avg_precision : float }.

Definition reset (self : t) : t := mk NaN.

Definition init : t := mk NaN.

Definition update (self : t) (output : Output) : res t :=
  let '(y_true, y_score) := output in
  v <- mean_average_precision y_true y_score ;;
  Ok (mk v).

Definition compute (self : t) : res float := Ok (avg_precision self).
End MeanAveragePrecisionBatch.

Module MeanAveragePrecisionEpoch.
Record t : Type := mk {
  y_true : list (Tensor Z);
  y_score : list (Tensor float)
}.

Definition reset (self : t) : t := mk [] [].

Definition init : t := mk [] [].

Definition update (self : t) (output : Output) : t :=
  let '(a, s) := output in
  mk (y_true self ++ [a]) (y_score self ++ [s]).

Definition compute (self : t) : res float :=
  a <- cat (y_true self) ;;
  s <- cat (y_score self) ;;
  mean_average_precision a s.
End MeanAveragePrecisionEpoch.

Module RecallAtBatch.
Record t : Type := mk {
  _sorted_sizes : list Z;
  _recall_at : dict (option float)
}.

Definition reset (self : t) : t :=
  mk (_sorted_sizes self)
     (fold_left (fun d s => dict_set s None d) (_sorted_sizes self) []).

Definition init (sizes : list Z) : t := reset (mk (sorted sizes) []).

Definition update (self : t) (output : Output) : res t :=
  let '(y_true, y_score) := output in
  r <- recall_at y_true y_score (_sorted_sizes self) ;;
  Ok (mk (_sorted_sizes self)
        (dict_update (_recall_at self)
           (map (fun kv => (fst kv, Some (snd kv))) r))).

Definition compute (self : t) : res (dict (option float)) :=
  Ok (_recall_at self).
End RecallAtBatch.

Module RecallAtEpoch.
Record t : Type := mk {
  _sorted_sizes : list Z;
  _y_true : list (Tensor Z);
  _y_score : list (Tensor float)
}.

Definition reset (self : t) : t := mk (_sorted_sizes self) [] [].

Definition init (sizes : list Z) : t := reset (mk (sorted sizes) [] []).

Definition update (self : t) (output : Output) : t :=
  let '(a, s) := output in
  mk (_sorted_sizes self) (_y_true self ++ [a]) (_y_score self ++ [s]).

Definition compute (self : t) : res (dict float) :=
  y_true <- cat (_y_true self) ;;
  y_score <- cat (_y_score self) ;;
  recall_at y_true y_score (_sorted_sizes self).
End RecallAtEpoch.

(** ** The engine's handler table and BatchMetric.attach

    A handler is a bound method: the metric object it belongs to and the
    method's name.  Two bound methods are equal when both agree. *)

Inductive Events : Type :=
| EPOCH_STARTED | EPOCH_COMPLETED
| ITERATION_STARTED | ITERATION_COMPLETED.

Inductive method : Type := started | iteration_completed | completed.

Definition handler : Type := (nat * method)%type.

Record registration : Type := mkReg {
  reg_event : Events;
  reg_handler : handler;
  reg_args : list String.string
}.

Record Engine : Type := mkEngine { _event_handlers : list registration }.

Definition Events_eqb (a b : Events) : bool :=
  match a, b with
  | EPOCH_STARTED, EPOCH_STARTED | EPOCH_COMPLETED, EPOCH_COMPLETED
  | ITERATION_STARTED, ITERATION_STARTED
  | ITERATION_COMPLETED, ITERATION_COMPLETED => true
  | _, _ => false
  end.

Definition method_eqb (a b : method) : bool :=
  match a, b with
  | started, started | iteration_completed, iteration_completed
  | completed, completed => true
  | _, _ => false
  end.

Definition handler_eqb (a b : handler) : bool :=
  (fst a =? fst b)%nat && method_eqb (snd a) (snd b).

Definition registered (h : handler) (e : Events) (r : registration) : bool :=
  Events_eqb (reg_event r) e && handler_eqb (reg_handler r) h.

(** Modelled from the spec: [Engine.has_event_handler] and
    [Engine.add_event_handler] are ignite's, outside the repository.  The
    first looks the handler up among those registered for the event, the
    second appends a registration. *)
Definition has_event_handler (engine : Engine) (h : handler) (e : Events)
  : bool :=
  existsb (registered h e) (_event_handlers engine).

Definition add_event_handler (engine : Engine) (e : Events) (h : handler)
  (args : list String.string) : Engine :=
  mkEngine (_event_handlers engine ++ [mkReg e h args]).

(** How many times [h] is registered for [e]. *)
Definition count_handler (engine : Engine) (h : handler) (e : Events) : nat :=
  length (filter (registered h e) (_event_handlers engine)).

Module BatchMetric.
Definition attach (self : nat) (engine : Engine) (name : String.string)
  : Engine :=
  let engine :=
    if has_event_handler engine (self, started) ITERATION_STARTED
    then engine
    else add_event_handler engine ITERATION_STARTED (self, started) [] in
  let engine :=
    if has_event_handler engine (self, iteration_completed)
         ITERATION_COMPLETED
    then engine
    else add_event_handler engine ITERATION_COMPLETED
           (self, iteration_completed) [] in
  add_event_handler engine ITERATION_COMPLETED (self, completed) [name].
End BatchMetric.

(** The spec's concrete scenario. *)
Definition A_ex : Tensor Z := mkTensor 4 [[1; 0; 0; 1]].
Definition S_ex : Tensor float :=
  mkTensor 4 [[Fin (9 # 10); Fin (1 # 10); Fin (2 # 10); Fin (8 # 10)]].

(** The row-wise concatenation of tensors of [C] columns. *)
Definition concat_rows {A : Type} (C : nat) (ts : list (Tensor A))
  : Tensor A :=
  mkTensor C (concat (map rows ts)).

(** Three batches of two classes. *)
Definition batch1 : Output := (mkTensor 2 [[1; 0]], mkTensor 2 [[Fin 1; Fin 0]]).
Definition batch2 : Output := (mkTensor 2 [[0; 1]], mkTensor 2 [[Fin 1; Fin 0]]).
Definition batch3 : Output :=
  (mkTensor 2 [[1; 1]; [0; 1]],
   mkTensor 2 [[Fin (1 # 2); Fin (1 # 3)]; [Fin 0; Fin 0]]).

(** Inputs for the shape and cutoff scenarios. *)
Definition A_two_rows : Tensor Z := mkTensor 2 [[0; 1]; [1; 0]].
Definition S_one_row : Tensor float := mkTensor 2 [[Fin (1 # 2); Fin (1 # 3)]].
Definition S_three_rows : Tensor float :=
  mkTensor 2 [[Fin 1; Fin 0]; [Fin 0; Fin 1]; [Fin 1; Fin 1]].
Definition A_one : Tensor Z := mkTensor 1 [[1]].
Definition S_one : Tensor float := mkTensor 1 [[Fin (1 # 2)]].

(** ** Per-sample quantities, named for the statements

    [ranks_before row i j]: class [i] is ranked before class [j] by the
    scores [row], that is, it scores strictly higher, or the two tie and [i]
    is the lower index. *)
Definition score_at (row : list float) (i : nat) : float := nth i row NaN.

Definition ranks_before (row : list float) (i j : nat) : Prop :=
  sort_gt (score_at row j) (score_at row i) = false
  /\ (sort_gt (score_at row i) (score_at row j) = true \/ (i < j)%nat).

(** All scores of the row tie. *)
Definition tied (row : list float) : Prop :=
  forall x y, In x row -> In y row -> sort_gt x y = false.

(** The relevance of the [m] top-ranked classes of one sample, in rank
    order, and the number of relevant classes among its top [k]. *)
Definition rank_relevance (r : list Z) (s : list float) (m : Z) : list Z :=
  gather_row r (firstn (Z.to_nat m) (argsort_row s)).

Definition hits (r : list Z) (s : list float) (m k : Z) : Z :=
  nth (Z.to_nat (k - 1)) (cumsum_row (rank_relevance r s m)) 0.

Definition total (r : list Z) : Z := fold_left Z.add r 0.

Definition binary (annotations : Tensor Z) : Prop :=
  Forall (Forall (fun a => a = 0 \/ a = 1)) (rows annotations).

(** The order on (index, score) pairs that the sort establishes. *)
Definition pair_before (x y : nat * float) : Prop :=
  sort_gt (snd y) (snd x) = false
  /\ (sort_gt (snd x) (snd y) = true \/ (fst x < fst y)%nat).

(** Precision@k and Recall@k of one sample with relevance [r] and scores
    [s], when the [m] top-ranked classes are gathered. *)
Definition sample_precision (r : list Z) (s : list float) (m k : Z) : float :=
  fdiv (of_Z (hits r s m k)) (of_Z k).

Definition sample_recall (r : list Z) (s : list float) (m k : Z) : float :=
  fdiv (of_Z (hits r s m k)) (of_Z (total r)).

(** The samples of a batch: each relevance row with its score row. *)
Definition samples (annotations : Tensor Z) (scores : Tensor float)
  : list (list Z * list float) :=
  combine (rows annotations) (rows scores).

(** Cutoffs the spec declares valid for [C] classes. *)
Definition valid_cutoffs (C : nat) (sizes : list Z) : Prop :=
  sizes <> [] /\ Forall (fun k => 1 <= k <= Z.of_nat C) sizes.

(** The column that the cutoff [k] selects: [t[:, k - 1]] for a valid [k]. *)
Definition column_at (t : Tensor float) (k : Z) : list float :=
  map (fun r => nth (Z.to_nat (k - 1)) r NaN) (rows t).

(** A batch whose first sample has no relevant class. *)
Definition A_empty_row : Tensor Z := mkTensor 2 [[0; 0]; [1; 0]].
Definition S_two_rows : Tensor float :=
  mkTensor 2 [[Fin (1 # 2); Fin (1 # 3)]; [Fin (1 # 5); Fin (9 # 10)]].

(** A finite value between 0 and 1; in particular not NaN. *)
Definition in_unit (x : float) : Prop :=
  match x with
  | Fin q => (0 <= q <= 1)%Q
  | _ => False
  end.

(** [precision_at] returns a map as soon as a cutoff is requested, and every
    map it returns has a value under each requested cutoff and only values
    that lie in [0, 1]. *)
Definition precision_in_unit (annotations : Tensor Z) (scores : Tensor float)
  (sizes : list Z) : Prop :=
  (sizes <> [] -> exists d, precision_at annotations scores sizes = Ok d)
  /\ forall d, precision_at annotations scores sizes = Ok d ->
       (forall k, In k sizes -> exists v, dict_get k d = Some v)
       /\ (forall k v, dict_get k d = Some v -> in_unit v).

(** A batch of two classes without any sample. *)
Definition A_no_sample : Tensor Z := mkTensor 2 [].
Definition S_no_sample : Tensor float := mkTensor 2 [].

(** Recall@k1 <= Recall@k2 for sample [i]: the two entries [recall[i, k1-1]]
    and [recall[i, k2-1]] of the recall matrix exist and are ordered. *)
Definition recall_monotone_at (annotations : Tensor Z)
  (scores : Tensor float) (sizes : list Z) (i : nat) (k1 k2 : Z) : Prop :=
  exists recall col1 col2,
    recall_matrix annotations scores sizes = Ok recall
    /\ select_col recall (k1 - 1) = Ok col1
    /\ select_col recall (k2 - 1) = Ok col2
    /\ fle (nth i col1 NaN) (nth i col2 NaN) = true.

(** One sample of two classes, none relevant. *)
Definition A_none_relevant : Tensor Z := mkTensor 2 [[0; 0]].
Definition S_single : Tensor float := mkTensor 2 [[Fin (1 # 2); Fin (1 # 3)]].

(** The value C1 states for tied scores: the number of true labels of the
    sample clipped to [k], over [k]. *)
Definition clipped_precision (r : list Z) (k : Z) : float :=
  fdiv (of_Z (Z.min (total r) k)) (of_Z k).

(** [precision_at] returns, under every requested cutoff, the batch mean of
    the per-sample value [value]. *)
Definition precision_at_returns (value : list Z -> Z -> float)
  (annotations : Tensor Z) (scores : Tensor float) (sizes : list Z) : Prop :=
  exists d, precision_at annotations scores sizes = Ok d
    /\ forall k, In k sizes ->
         dict_get k d =
         Some (fmean (map (fun r => value r k) (rows annotations))).

(** One sample of three classes with tied scores; only the last class is
    relevant. *)
Definition A_last_relevant : Tensor Z := mkTensor 3 [[0; 0; 1]].
Definition S_tied : Tensor float := mkTensor 3 [[Fin 0; Fin 0; Fin 0]].

(** The class column [c] of the relevance matrix has no positive sample. *)
Definition no_positive (annotations : Tensor Z) (c : nat) : Prop :=
  Forall (fun a => a = 0) (column 0 c annotations).

Definition not_nan (x : float) : bool := negb (is_nan x).

(** Two samples, two classes; the second class has no positive sample. *)
Definition A_second_class_empty : Tensor Z := mkTensor 2 [[1; 0]; [0; 0]].

(** ** Further notions used by the statements on the metric functions *)

(** [k] is a key of the dictionary. *)
Definition has_key {V : Type} (k : Z) (d : dict V) : Prop :=
  exists v, dict_get k d = Some v.

(** Every sample of the batch has at least one relevant class. *)
Definition all_relevant (annotations : Tensor Z) : Prop :=
  Forall (fun r => 0 < total r) (rows annotations).

(** The relevance of all the classes of one sample, in rank order. *)
Definition ranked (r : list Z) (s : list float) : list Z :=
  gather_row r (argsort_row s).

(** In the sample with relevance [r] and scores [s], every relevant class
    scores strictly above every class that is not relevant. *)
Definition separated (r : list Z) (s : list float) : Prop :=
  forall i j, (i < length r)%nat -> (j < length r)%nat ->
    nth i r 0 = 1 -> nth j r 0 = 0 ->
    sort_gt (score_at s i) (score_at s j) = true.

Definition perfectly_ranked (annotations : Tensor Z) (scores : Tensor float)
  : Prop :=
  Forall (fun p => separated (fst p) (snd p)) (samples annotations scores).

(** Two samples whose relevant classes score highest. *)
Definition A_perfect : Tensor Z := mkTensor 3 [[1; 0; 1]; [0; 1; 0]].
Definition S_perfect : Tensor float :=
  mkTensor 3 [[Fin (9 # 10); Fin (1 # 10); Fin (8 # 10)];
              [Fin (1 # 5); Fin (3 # 5); Fin (2 # 5)]].

(** ** Successive updates of the Batch-Scoped metrics

    [update] called on each batch in turn; the first exception stops the
    sequence. *)
Fixpoint recall_batch_updates (self : RecallAtBatch.t) (batches : list Output)
  : res RecallAtBatch.t :=
  match batches with
  | [] => Ok self
  | b :: batches' =>
      self' <- RecallAtBatch.update self b ;;
      recall_batch_updates self' batches'
  end.

Fixpoint map_batch_updates (self : MeanAveragePrecisionBatch.t)
  (batches : list Output) : res MeanAveragePrecisionBatch.t :=
  match batches with
  | [] => Ok self
  | b :: batches' =>
      self' <- MeanAveragePrecisionBatch.update self b ;;
      map_batch_updates self' batches'
  end.

(** The values of a map of floats, seen as the optional floats that
    [RecallAtBatch] stores. *)
Definition published (r : dict float) : dict (option float) :=
  map (fun kv => (fst kv, Some (snd kv))) r.

(** The keys of the stored map stay within the metric's cutoffs. *)
Definition keys_within (self : RecallAtBatch.t) : Prop :=
  forall k, has_key k (RecallAtBatch._recall_at self) ->
            In k (RecallAtBatch._sorted_sizes self).

(** ** engine.state.metrics and the completed methods

    The result store of the engine is a Python dictionary with string keys;
    a stored value is a float or None. *)

Definition Metrics : Type := list (String.string * option float).

Fixpoint metrics_set (key : String.string) (v : option float) (m : Metrics)
  : Metrics :=
  match m with
  | [] => [(key, v)]
  | (key', v') :: m' =>
      if String.eqb key key' then (key, v) :: m'
      else (key', v') :: metrics_set key v m'
  end.

Fixpoint metrics_get (key : String.string) (m : Metrics)
  : option (option float) :=
  match m with
  | [] => None
  | (key', v') :: m' =>
      if String.eqb key key' then Some v' else metrics_get key m'
  end.

(** [str(k)] of a Python int: decimal digits, a minus sign if negative. *)
Definition py_str (k : Z) : String.string :=
  DecimalString.NilEmpty.string_of_int (Z.to_int k).

(** The f-string ['{name}_{k}']. *)
Definition metric_key (name : String.string) (k : Z) : String.string :=
  String.append name (String.append "_"%string (py_str k)).

(** [for k, v in result.items(): engine.state.metrics[...] = v] *)
Definition publish_items (name : String.string) (result : dict (option float))
  (metrics : Metrics) : Metrics :=
  fold_left (fun m kv => metrics_set (metric_key name (fst kv)) (snd kv) m)
    result metrics.

(** [RecallAtBatch.completed(engine, name)], on the engine's result store. *)
Definition RecallAtBatch_completed (self : RecallAtBatch.t)
  (metrics : Metrics) (name : String.string) : res Metrics :=
  result <- RecallAtBatch.compute self ;;
  Ok (publish_items name result metrics).

(** [RecallAtEpoch.completed(engine, name)]. *)
Definition RecallAtEpoch_completed (self : RecallAtEpoch.t)
  (metrics : Metrics) (name : String.string) : res Metrics :=
  result <- RecallAtEpoch.compute self ;;
  Ok (publish_items name (published result) metrics).

(** A [RecallAtEpoch] metric with the cutoffs (1, 2) that has seen
    [batch1] and [batch3]. *)
Definition epoch_two_batches : RecallAtEpoch.t :=
  fold_left RecallAtEpoch.update [batch1; batch3] (RecallAtEpoch.init [2; 1]).

(** The class column [c] of the relevance matrix has a positive sample. *)
Definition has_positive (annotations : Tensor Z) (c : nat) : Prop :=
  exists a, In a (column 0 c annotations) /\ a <> 0.

(** The relevance matrix cut down to its first [n] rows. *)
Definition first_rows (n : nat) (annotations : Tensor Z) : Tensor Z :=
  mkTensor (ncols annotations) (firstn n (rows annotations)).

(** The cutoffs [k] whose column index [k - 1] addresses one of [w] columns,
    counting from the start or, when negative, from the end. *)
Definition addressable (w : nat) (sizes : list Z) : Prop :=
  Forall (fun k => 1 - Z.of_nat w <= k <= Z.of_nat w) sizes.

(** An engine that already serves another metric object. *)
Definition engine_in_use : Engine :=
  mkEngine [mkReg ITERATION_STARTED (1%nat, started) [];
            mkReg ITERATION_COMPLETED (1%nat, iteration_completed) [];
            mkReg ITERATION_COMPLETED (1%nat, completed) ["loss"%string]].

(** ** The metric functions over an arbitrary ranking

    [torch.argsort] is called without [stable=True]: the source does not fix
    the order among equal scores.  Here the ranking of a row is a parameter
    [rank], only required to sort the scores in descending order;
    [precision_at] and [recall_at] are the instances at [argsort_row]. *)

Definition argsort_by (rank : list float -> list nat) (scores : Tensor float)
  : Tensor nat :=
  mkTensor (ncols scores) (map rank (rows scores)).

Definition annotations_of_top_max_s_by (rank : list float -> list nat)
  (annotations : Tensor Z) (scores : Tensor float) (sizes : list Z)
  : res (Tensor Z) :=
  let sorted_labels := argsort_by rank scores in
  m <- py_max sizes ;;
  gather annotations (slice_cols sorted_labels m).

Definition precision_at_by (rank : list float -> list nat)
  (annotations : Tensor Z) (scores : Tensor float) (sizes : list Z)
  : res (dict float) :=
  top <- annotations_of_top_max_s_by rank annotations scores sizes ;;
  let cumsum := cumsum_float top in
  precision_loop cumsum sizes [].

Definition recall_matrix_by (rank : list float -> list nat)
  (annotations : Tensor Z) (scores : Tensor float) (sizes : list Z)
  : res (Tensor float) :=
  top <- annotations_of_top_max_s_by rank annotations scores sizes ;;
  let cumsum := cumsum_float top in
  div_rows cumsum (num_rel annotations).

Definition recall_at_by (rank : list float -> list nat)
  (annotations : Tensor Z) (scores : Tensor float) (sizes : list Z)
  : res (dict float) :=
  recall <- recall_matrix_by rank annotations scores sizes ;;
  recall_loop recall sizes [].

(** [i] may stand before [j] in a descending ranking of [row]: [j] does not
    score strictly above [i]. *)
Definition not_below (row : list float) (i j : nat) : Prop :=
  sort_gt (score_at row j) (score_at row i) = false.

(** What the source relies on from [torch.argsort(..., descending=True)]:
    the ranking of a row is a permutation of its class indices in which no
    class stands before a class of strictly higher score. *)
Definition sorts_descending (rank : list float -> list nat) : Prop :=
  forall row,
    Permutation (rank row) (seq 0 (length row))
    /\ StronglySorted (not_below row) (rank row).

(** The number of relevant classes of the sample among the [k] classes that
    [rank] places first. *)
Definition top_k_relevant (rank : list float -> list nat) (r : list Z)
  (s : list float) (k : Z) : Z :=
  total (firstn (Z.to_nat k) (gather_row r (rank s))).

(** What [precision_at_by] and [recall_at_by] return under the cutoff [k]:
    the batch means of the per-sample count over [k], resp. over the
    number of relevant classes of the sample. *)
Definition precision_value (rank : list float -> list nat)
  (annotations : Tensor Z) (scores : Tensor float) (k : Z) : float :=
  fmean (map (fun p => fdiv (of_Z (top_k_relevant rank (fst p) (snd p) k))
                         (of_Z k))
           (samples annotations scores)).

Definition recall_value (rank : list float -> list nat)
  (annotations : Tensor Z) (scores : Tensor float) (k : Z) : float :=
  fmean (map (fun p => fdiv (of_Z (top_k_relevant rank (fst p) (snd p) k))
                         (of_Z (total (fst p))))
           (samples annotations scores)).

(** * Properties *)

(** ** The concrete scenarios of the spec *)

Example argsort_ex : rows (argsort S_ex) = [[0; 3; 2; 1]%nat].
Proof. reflexivity. Qed.

Example precision_at_ex :
  precision_at A_ex S_ex [1; 2] = Ok [(1, Fin 1); (2, Fin 1)].
Proof. reflexivity. Qed.

Example recall_at_ex :
  recall_at A_ex S_ex [1; 2] = Ok [(1, Fin (1 # 2)); (2, Fin 1)].
Proof. reflexivity. Qed.

Example mean_average_precision_ex :
  mean_average_precision A_ex S_ex = Ok (Fin 1).
Proof. reflexivity. Qed.

(** ** Dictionaries *)

Lemma dict_get_set_same {V : Type} (k : Z) (v : V) (d : dict V) :
  dict_get k (dict_set k v d) = Some v.
Proof.
  induction d as [|[k' v'] d IH]; simpl.
  - now rewrite Z.eqb_refl.
  - destruct (k =? k') eqn:E; simpl; rewrite ?Z.eqb_refl, ?E; auto.
Qed.

Lemma dict_get_set_other {V : Type} (k k' : Z) (v : V) (d : dict V) :
  k <> k' -> dict_get k (dict_set k' v d) = dict_get k d.
Proof.
  intros Hne. induction d as [|[k0 v0] d IH]; simpl.
  - destruct (k =? k') eqn:E; auto. apply Z.eqb_eq in E. contradiction.
  - destruct (k' =? k0) eqn:E0; simpl.
    + apply Z.eqb_eq in E0. subst k0.
      destruct (k =? k') eqn:E; auto. apply Z.eqb_eq in E. contradiction.
    + destruct (k =? k0); auto.
Qed.

(** A loop that stores [f s] under every [s] of [sizes] leaves [f k] under
    every [k] of [sizes], whatever the dictionary held before. *)
Lemma dict_get_fold_set {V : Type} (f : Z -> V) (sizes : list Z) :
  forall (d : dict V) (k : Z),
    dict_get k (fold_left (fun d s => dict_set s (f s) d) sizes d) =
    if existsb (Z.eqb k) sizes then Some (f k) else dict_get k d.
Proof.
  induction sizes as [|s sizes IH]; intros d k; simpl; auto.
  rewrite IH. destruct (existsb (Z.eqb k) sizes) eqn:E.
  - now rewrite orb_true_r.
  - rewrite orb_false_r. destruct (k =? s) eqn:Es.
    + apply Z.eqb_eq in Es. subst s. apply dict_get_set_same.
    + apply Z.eqb_neq in Es. now apply dict_get_set_other.
Qed.

Lemma existsb_eqb_In (k : Z) (l : list Z) :
  In k l -> existsb (Z.eqb k) l = true.
Proof.
  intros H. apply existsb_exists. exists k. split; auto. apply Z.eqb_refl.
Qed.

Lemma existsb_eqb_not_In (k : Z) (l : list Z) :
  ~ In k l -> existsb (Z.eqb k) l = false.
Proof.
  intros H. destruct (existsb (Z.eqb k) l) eqn:E; auto.
  apply existsb_exists in E. destruct E as (x & Hx & Hk).
  apply Z.eqb_eq in Hk. subst x. contradiction.
Qed.

(** ** Premature compute (C2) *)

Lemma cat_nil_raises {A : Type} : raises (@cat A []).
Proof. exists RuntimeError. reflexivity. Qed.

(** C2, as stated, fails: a Batch-Scoped metric that was reset and never
    updated does not raise on [compute()], it returns its NaN sentinel. *)
Lemma premature_compute_batch_no_raise :
  ~ raises (MeanAveragePrecisionBatch.compute
              (MeanAveragePrecisionBatch.reset MeanAveragePrecisionBatch.init)).
Proof. intros [e H]. discriminate H. Qed.

(** C2, amended: in the reset state a Batch-Scoped metric's [compute()]
    returns the unset sentinel without raising (NaN for the mAP metric, a
    map holding None under every requested cutoff for the Recall@k metric);
    an Epoch-Scoped metric with an empty accumulator raises. *)
Theorem premature_compute
  (b : MeanAveragePrecisionBatch.t) (rb : RecallAtBatch.t)
  (e : MeanAveragePrecisionEpoch.t) (re : RecallAtEpoch.t) :
  MeanAveragePrecisionBatch.compute (MeanAveragePrecisionBatch.reset b)
    = Ok NaN
  /\ (exists d, RecallAtBatch.compute (RecallAtBatch.reset rb) = Ok d
        /\ (forall k, In k (RecallAtBatch._sorted_sizes rb) ->
              dict_get k d = Some None)
        /\ (forall k v, dict_get k d = Some v -> v = None))
  /\ raises (MeanAveragePrecisionEpoch.compute
               (MeanAveragePrecisionEpoch.reset e))
  /\ raises (RecallAtEpoch.compute (RecallAtEpoch.reset re)).
Proof.
  split; [reflexivity|]. split.
  - eexists. split; [reflexivity|]. simpl.
    pose proof (dict_get_fold_set (fun _ : Z => @None float)
                  (RecallAtBatch._sorted_sizes rb) []) as H.
    split.
    + intros k Hk. rewrite H. now rewrite existsb_eqb_In.
    + intros k v. rewrite H.
      destruct (existsb _ _); simpl; congruence.
  - split; exists RuntimeError; reflexivity.
Qed.

(** ** Attaching twice (C8) *)

Lemma has_event_handler_add (engine : Engine) (h : handler) (e : Events)
  (args : list String.string) :
  has_event_handler (add_event_handler engine e h args) h e = true.
Proof.
  unfold has_event_handler, add_event_handler. simpl.
  rewrite existsb_app. simpl. unfold registered at 2. simpl.
  assert (Events_eqb e e = true) as -> by (destruct e; reflexivity).
  assert (handler_eqb h h = true) as ->.
  { destruct h as [n m]. unfold handler_eqb. simpl.
    rewrite Nat.eqb_refl. destruct m; reflexivity. }
  now rewrite orb_true_r.
Qed.

Lemma has_event_handler_mono (engine : Engine) (h h' : handler)
  (e e' : Events) (args : list String.string) :
  has_event_handler engine h e = true ->
  has_event_handler (add_event_handler engine e' h' args) h e = true.
Proof.
  unfold has_event_handler, add_event_handler. simpl. intros H.
  now rewrite existsb_app, H.
Qed.

Lemma attach_has_started (self : nat) (engine : Engine)
  (name : String.string) :
  has_event_handler (BatchMetric.attach self engine name)
    (self, started) ITERATION_STARTED = true.
Proof.
  unfold BatchMetric.attach.
  apply has_event_handler_mono.
  assert (has_event_handler
            (if has_event_handler engine (self, started) ITERATION_STARTED
             then engine
             else add_event_handler engine ITERATION_STARTED
                    (self, started) [])
            (self, started) ITERATION_STARTED = true) as H.
  { destruct (has_event_handler engine (self, started) ITERATION_STARTED)
      eqn:E; auto using has_event_handler_add. }
  destruct (has_event_handler _ (self, iteration_completed) _);
    auto using has_event_handler_mono.
Qed.

Lemma attach_has_iteration_completed (self : nat) (engine : Engine)
  (name : String.string) :
  has_event_handler (BatchMetric.attach self engine name)
    (self, iteration_completed) ITERATION_COMPLETED = true.
Proof.
  unfold BatchMetric.attach.
  apply has_event_handler_mono.
  match goal with
  | |- has_event_handler (if ?c then _ else _) _ _ = true =>
      destruct c eqn:E; auto using has_event_handler_add
  end.
Qed.

Lemma attach_again (self : nat) (engine : Engine) (name : String.string) :
  BatchMetric.attach self (BatchMetric.attach self engine name) name =
  add_event_handler (BatchMetric.attach self engine name)
    ITERATION_COMPLETED (self, completed) [name].
Proof.
  unfold BatchMetric.attach at 1.
  rewrite attach_has_started.
  now rewrite attach_has_iteration_completed.
Qed.

Lemma count_handler_add (engine : Engine) (h h' : handler) (e e' : Events)
  (args : list String.string) :
  count_handler (add_event_handler engine e' h' args) h e =
  (count_handler engine h e +
   if registered h e (mkReg e' h' args) then 1 else 0)%nat.
Proof.
  unfold count_handler, add_event_handler. simpl.
  rewrite filter_app, length_app. simpl.
  now destruct (registered h e (mkReg e' h' args)).
Qed.

(** C8, as stated, fails: after attaching the same metric twice under the
    same name to an engine without handlers, the publish callback is
    registered twice. *)
Lemma attach_twice_registers_completed_twice :
  count_handler
    (BatchMetric.attach 0 (BatchMetric.attach 0 (mkEngine []) "recall"%string)
       "recall"%string)
    (0%nat, completed) ITERATION_COMPLETED <> 1%nat.
Proof. vm_compute. discriminate. Qed.

Lemma has_event_handler_add_cases (engine : Engine) (h h' : handler)
  (e e' : Events) (args : list String.string) :
  has_event_handler (add_event_handler engine e' h' args) h e =
  has_event_handler engine h e || registered h e (mkReg e' h' args).
Proof.
  unfold has_event_handler, add_event_handler. simpl.
  rewrite existsb_app. simpl. now rewrite orb_false_r.
Qed.

Lemma count_zero_not_registered (engine : Engine) (h : handler)
  (e : Events) :
  count_handler engine h e = 0%nat ->
  has_event_handler engine h e = false.
Proof.
  unfold count_handler, has_event_handler.
  induction (_event_handlers engine) as [|r l IH]; simpl; auto.
  destruct (registered h e r); simpl; [discriminate|auto].
Qed.

(** C8, amended: attaching the same metric instance twice to the same engine
    under the same name, on any engine where the metric is not yet
    registered, leaves the reset callback (iteration-start) and the update
    callback (iteration-end) registered exactly once, while the publish
    callback is registered once per attach, that is twice: the second attach
    appends this one registration and nothing else. *)
Theorem attach_twice (self : nat) (engine : Engine) (name : String.string) :
  count_handler engine (self, started) ITERATION_STARTED = 0%nat ->
  count_handler engine (self, iteration_completed) ITERATION_COMPLETED
    = 0%nat ->
  count_handler engine (self, completed) ITERATION_COMPLETED = 0%nat ->
  let e1 := BatchMetric.attach self engine name in
  let e2 := BatchMetric.attach self e1 name in
  count_handler e2 (self, started) ITERATION_STARTED = 1%nat
  /\ count_handler e2 (self, iteration_completed) ITERATION_COMPLETED
       = 1%nat
  /\ count_handler e2 (self, completed) ITERATION_COMPLETED = 2%nat
  /\ _event_handlers e2 =
       _event_handlers e1
         ++ [mkReg ITERATION_COMPLETED (self, completed) [name]]
  /\ _event_handlers e1 =
       _event_handlers engine
         ++ [mkReg ITERATION_STARTED (self, started) [];
             mkReg ITERATION_COMPLETED (self, iteration_completed) [];
             mkReg ITERATION_COMPLETED (self, completed) [name]].
Proof.
  intros Hs Hu Hc e1 e2.
  assert (e1 =
          add_event_handler
            (add_event_handler
               (add_event_handler engine ITERATION_STARTED (self, started) [])
               ITERATION_COMPLETED (self, iteration_completed) [])
            ITERATION_COMPLETED (self, completed) [name]) as He1.
  { unfold e1, BatchMetric.attach.
    rewrite (count_zero_not_registered _ _ _ Hs).
    rewrite has_event_handler_add_cases.
    rewrite (count_zero_not_registered _ _ _ Hu). reflexivity. }
  assert (e2 =
          add_event_handler e1 ITERATION_COMPLETED (self, completed) [name])
    as He2 by apply attach_again.
  rewrite He2, He1. rewrite !count_handler_add, Hs, Hu, Hc.
  unfold registered, handler_eqb. simpl. rewrite Nat.eqb_refl. simpl.
  repeat split; auto. now rewrite <- !app_assoc.
Qed.

Lemma attach_twice_witness :
  let e1 := BatchMetric.attach 0 engine_in_use "recall"%string in
  let e2 := BatchMetric.attach 0 e1 "recall"%string in
  count_handler e2 (0%nat, started) ITERATION_STARTED = 1%nat
  /\ count_handler e2 (0%nat, iteration_completed) ITERATION_COMPLETED
       = 1%nat
  /\ count_handler e2 (0%nat, completed) ITERATION_COMPLETED = 2%nat
  /\ _event_handlers e2 =
       _event_handlers e1
         ++ [mkReg ITERATION_COMPLETED (0%nat, completed) ["recall"%string]]
  /\ _event_handlers e1 =
       _event_handlers engine_in_use
         ++ [mkReg ITERATION_STARTED (0%nat, started) [];
             mkReg ITERATION_COMPLETED (0%nat, iteration_completed) [];
             mkReg ITERATION_COMPLETED (0%nat, completed)
               ["recall"%string]].
Proof.
  apply (attach_twice 0 engine_in_use "recall"%string); reflexivity.
Defined.

(** ** Epoch-Scoped metrics compute on the concatenation (C3) *)

Lemma cat_same_ncols {A : Type} (C : nat) (ts : list (Tensor A)) :
  ts <> [] -> Forall (fun t => ncols t = C) ts ->
  cat ts = Ok (mkTensor C (concat (map rows ts))).
Proof.
  intros Hne Hall. destruct ts as [|t ts]; [contradiction|].
  unfold cat.
  assert (ncols t = C) as Ht by (inversion Hall; auto).
  assert (forallb (fun u => (ncols u =? ncols t)%nat) (t :: ts) = true) as ->.
  { apply forallb_forall. intros u Hu. rewrite Forall_forall in Hall.
    apply Nat.eqb_eq. rewrite (Hall u Hu). auto. }
  now rewrite Ht.
Qed.

Lemma map_epoch_updates (batches : list Output) :
  forall self : MeanAveragePrecisionEpoch.t,
    fold_left MeanAveragePrecisionEpoch.update batches self =
    MeanAveragePrecisionEpoch.mk
      (MeanAveragePrecisionEpoch.y_true self ++ map fst batches)
      (MeanAveragePrecisionEpoch.y_score self ++ map snd batches).
Proof.
  induction batches as [|[a s] batches IH]; intros self; simpl.
  - rewrite !app_nil_r. now destruct self.
  - rewrite IH. simpl. now rewrite <- !app_assoc.
Qed.

Lemma recall_epoch_updates (batches : list Output) :
  forall self : RecallAtEpoch.t,
    fold_left RecallAtEpoch.update batches self =
    RecallAtEpoch.mk (RecallAtEpoch._sorted_sizes self)
      (RecallAtEpoch._y_true self ++ map fst batches)
      (RecallAtEpoch._y_score self ++ map snd batches).
Proof.
  induction batches as [|[a s] batches IH]; intros self; simpl.
  - rewrite !app_nil_r. now destruct self.
  - rewrite IH. simpl. now rewrite <- !app_assoc.
Qed.

(** C3: after [reset()], [update()] on each batch of a non-empty sequence in
    order and then [compute()], an Epoch-Scoped metric returns what the pure
    function ([mean_average_precision], or [recall_at] with the metric's
    cutoffs) returns on the row-wise concatenation of the relevance matrices
    and of the score matrices. *)
Theorem epoch_compute_concatenation (C : nat) (batches : list Output)
  (m0 : MeanAveragePrecisionEpoch.t) (r0 : RecallAtEpoch.t) :
  batches <> [] ->
  Forall (fun b => ncols (fst b) = C /\ ncols (snd b) = C) batches ->
  MeanAveragePrecisionEpoch.compute
    (fold_left MeanAveragePrecisionEpoch.update batches
       (MeanAveragePrecisionEpoch.reset m0))
  = mean_average_precision
      (concat_rows C (map fst batches)) (concat_rows C (map snd batches))
  /\
  RecallAtEpoch.compute
    (fold_left RecallAtEpoch.update batches (RecallAtEpoch.reset r0))
  = recall_at
      (concat_rows C (map fst batches)) (concat_rows C (map snd batches))
      (RecallAtEpoch._sorted_sizes r0).
Proof.
  intros Hne Hall.
  assert (cat (map fst batches) = Ok (concat_rows C (map fst batches))) as Ha.
  { apply cat_same_ncols.
    - destruct batches; [contradiction|discriminate].
    - rewrite Forall_map. eapply Forall_impl; [|exact Hall].
      intros b Hb. apply Hb. }
  assert (cat (map snd batches) = Ok (concat_rows C (map snd batches))) as Hs.
  { apply cat_same_ncols.
    - destruct batches; [contradiction|discriminate].
    - rewrite Forall_map. eapply Forall_impl; [|exact Hall].
      intros b Hb. apply Hb. }
  split.
  - rewrite map_epoch_updates.
    unfold MeanAveragePrecisionEpoch.compute. simpl.
    now rewrite Ha, Hs.
  - rewrite recall_epoch_updates.
    unfold RecallAtEpoch.compute. simpl.
    now rewrite Ha, Hs.
Qed.

Lemma epoch_compute_concatenation_witness :
  MeanAveragePrecisionEpoch.compute
    (fold_left MeanAveragePrecisionEpoch.update [batch1; batch2; batch3]
       (MeanAveragePrecisionEpoch.reset MeanAveragePrecisionEpoch.init))
  = mean_average_precision
      (concat_rows 2 (map fst [batch1; batch2; batch3]))
      (concat_rows 2 (map snd [batch1; batch2; batch3]))
  /\
  RecallAtEpoch.compute
    (fold_left RecallAtEpoch.update [batch1; batch2; batch3]
       (RecallAtEpoch.reset (RecallAtEpoch.init [2; 1])))
  = recall_at
      (concat_rows 2 (map fst [batch1; batch2; batch3]))
      (concat_rows 2 (map snd [batch1; batch2; batch3]))
      (RecallAtEpoch._sorted_sizes (RecallAtEpoch.init [2; 1])).
Proof.
  apply (epoch_compute_concatenation 2 [batch1; batch2; batch3]).
  - discriminate.
  - repeat constructor.
Defined.

(** ** The result loops *)

Lemma precision_loop_raises (cumsum : Tensor float) (k : Z) (sizes : list Z) :
  In k sizes -> raises (select_col cumsum (k - 1)) ->
  forall result, raises (precision_loop cumsum sizes result).
Proof.
  intros Hin Hk. induction sizes as [|s sizes IH]; [contradiction|].
  intros result. simpl.
  destruct (select_col cumsum (s - 1)) as [col|e] eqn:E; simpl.
  - destruct Hin as [->|Hin]; auto.
    destruct Hk as [e Hk]. congruence.
  - now exists e.
Qed.

Lemma recall_loop_raises (recall : Tensor float) (k : Z) (sizes : list Z) :
  In k sizes -> raises (select_col recall (k - 1)) ->
  forall result, raises (recall_loop recall sizes result).
Proof.
  intros Hin Hk. induction sizes as [|s sizes IH]; [contradiction|].
  intros result. simpl.
  destruct (select_col recall (s - 1)) as [col|e] eqn:E; simpl.
  - destruct Hin as [->|Hin]; auto.
    destruct Hk as [e Hk]. congruence.
  - now exists e.
Qed.

Lemma slice_stop_le (n : nat) (m : Z) : (slice_stop n m <= n)%nat.
Proof. unfold slice_stop. destruct (m <? 0) eqn:E; lia. Qed.

Lemma select_col_beyond (t : Tensor float) (k : Z) :
  Z.of_nat (ncols t) < k -> raises (select_col t (k - 1)).
Proof.
  intros Hk. exists IndexError. unfold select_col, norm_index.
  assert ((0 <=? k - 1) && (k - 1 <? Z.of_nat (ncols t)) = false) as ->.
  { apply andb_false_iff. right. apply Z.ltb_ge. lia. }
  assert ((- Z.of_nat (ncols t) <=? k - 1) && (k - 1 <? 0) = false) as ->.
  { apply andb_false_iff. right. apply Z.ltb_ge. lia. }
  reflexivity.
Qed.

(** What [annotations_of_top_max_s] returns has the index's shape. *)
Lemma top_shape (annotations : Tensor Z) (scores : Tensor float)
  (sizes : list Z) (top : Tensor Z) :
  annotations_of_top_max_s annotations scores sizes = Ok top ->
  exists m, py_max sizes = Ok m
    /\ ncols top = slice_stop (ncols scores) m
    /\ rows top =
         gather_rows (rows annotations)
           (map (firstn (slice_stop (ncols scores) m))
              (map argsort_row (rows scores)))
    /\ (nrows scores <= nrows annotations)%nat.
Proof.
  unfold annotations_of_top_max_s. intros H.
  destruct (py_max sizes) as [m|e]; simpl in H; [|discriminate].
  exists m. split; auto. unfold gather in H. simpl in H.
  unfold nrows in *. simpl in H. rewrite !length_map in H.
  destruct (length (rows annotations) <? length (rows scores))%nat eqn:E;
    [discriminate|].
  apply Nat.ltb_ge in E.
  destruct (forallb _ _); [|discriminate].
  injection H as <-. simpl. auto.
Qed.

Lemma div_rows_ncols (cumsum recall : Tensor float) (counts : list Z) :
  div_rows cumsum counts = Ok recall -> ncols recall = ncols cumsum.
Proof.
  unfold div_rows. intros H.
  destruct (nrows cumsum =? length counts)%nat.
  - now injection H as <-.
  - destruct (rows cumsum) as [|r [|r' rs]]; destruct counts as [|c [|c' cs]];
      try discriminate; now injection H as <-.
Qed.

(** ** Invalid cutoffs (C7) *)

(** C7, as stated, fails: with the cutoffs (0, 1) on a one-class batch both
    functions return a map, the non-positive cutoff 0 is not reported. *)
Lemma zero_cutoff_not_reported :
  ~ raises (precision_at A_one S_one [0; 1])
  /\ ~ raises (recall_at A_one S_one [0; 1]).
Proof. split; intros [e H]; vm_compute in H; discriminate H. Qed.

(** C7, amended: whenever [sizes] contains a cutoff [k] greater than the
    number of classes, [precision_at] and [recall_at] raise at call time
    instead of returning a map.  (A non-positive cutoff is not checked.) *)
Theorem cutoff_beyond_classes_raises (annotations : Tensor Z)
  (scores : Tensor float) (sizes : list Z) (k : Z) :
  In k sizes -> Z.of_nat (ncols scores) < k ->
  raises (precision_at annotations scores sizes)
  /\ raises (recall_at annotations scores sizes).
Proof.
  intros Hin Hk.
  pose proof (top_shape annotations scores sizes) as Htop.
  unfold precision_at, recall_at, recall_matrix.
  destruct (annotations_of_top_max_s annotations scores sizes) as [top|e];
    simpl; [|split; now exists e].
  destruct (Htop top eq_refl) as (m & _ & Hc & _).
  pose proof (slice_stop_le (ncols scores) m) as Hle.
  split.
  - apply precision_loop_raises with k; auto.
    apply select_col_beyond. simpl. lia.
  - destruct (div_rows (cumsum_float top) (num_rel annotations))
      as [recall|e] eqn:E; simpl; [|now exists e].
    apply recall_loop_raises with k; auto.
    apply select_col_beyond. rewrite (div_rows_ncols _ _ _ E). simpl. lia.
Qed.

Lemma cutoff_beyond_classes_raises_witness :
  raises (precision_at A_ex S_ex [2; 5])
  /\ raises (recall_at A_ex S_ex [2; 5]).
Proof.
  apply (cutoff_beyond_classes_raises A_ex S_ex [2; 5] 5).
  - simpl. auto.
  - simpl. lia.
Defined.

(** ** Shape mismatch (C6) *)

(** C6, as stated, fails: with two relevance rows and one score row, the
    shapes differ and yet [precision_at] and [recall_at] return a map. *)
Lemma shape_mismatch_not_reported :
  shape A_two_rows <> shape S_one_row
  /\ ~ raises (precision_at A_two_rows S_one_row [1])
  /\ ~ raises (recall_at A_two_rows S_one_row [1]).
Proof.
  split; [discriminate|].
  split; intros [e H]; vm_compute in H; discriminate H.
Qed.

(** C6, amended: no function checks the shapes itself.  When the score
    matrix has more rows than the relevance matrix, [precision_at] and
    [recall_at] raise (the gather of the ranked relevance fails) and return
    no map; when the two matrices have different numbers of rows,
    [mean_average_precision] raises (the sample-count check of the library
    call) and returns no value.  For the other mismatches no error is
    guaranteed. *)
Theorem row_mismatch_raises (annotations : Tensor Z)
  (scores : Tensor float) (sizes : list Z) :
  ((nrows annotations < nrows scores)%nat ->
   raises (precision_at annotations scores sizes)
   /\ raises (recall_at annotations scores sizes))
  /\ (nrows annotations <> nrows scores ->
      raises (mean_average_precision annotations scores)).
Proof.
  split.
  - intros Hlt.
    pose proof (top_shape annotations scores sizes) as Htop.
    unfold precision_at, recall_at, recall_matrix.
    destruct (annotations_of_top_max_s annotations scores sizes) as [top|e];
      simpl; [|split; now exists e].
    destruct (Htop top eq_refl) as (m & _ & _ & _ & Hle). lia.
  - intros Hne. exists ValueError.
    unfold mean_average_precision, average_precision_score.
    destruct (nrows annotations =? 0)%nat; auto.
    apply Nat.eqb_neq in Hne. now rewrite Hne.
Qed.

Lemma row_mismatch_raises_witness :
  raises (precision_at A_two_rows S_three_rows [1])
  /\ raises (recall_at A_two_rows S_three_rows [1])
  /\ raises (mean_average_precision A_two_rows S_three_rows).
Proof.
  destruct (row_mismatch_raises A_two_rows S_three_rows [1]) as [H1 H2].
  assert ((nrows A_two_rows < nrows S_three_rows)%nat) as Hlt
    by (unfold nrows; simpl; lia).
  destruct (H1 Hlt) as [Hp Hr].
  split; [exact Hp|]. split; [exact Hr|].
  apply H2. unfold nrows. simpl. lia.
Defined.

(** ** The rank permutation *)

Lemma Qle_bool_false (a b : Q) : Qle_bool a b = false -> (b < a)%Q.
Proof.
  intros H. apply Qnot_le_lt. intros Hle.
  apply Qle_bool_iff in Hle. congruence.
Qed.

Lemma sort_gt_asym (a b : float) :
  sort_gt a b = true -> sort_gt b a = false.
Proof.
  destruct a as [| | |p], b as [| | |q]; simpl; try congruence.
  intros H. apply negb_true_iff in H. apply Qle_bool_false in H.
  apply negb_false_iff. apply Qle_bool_iff. now apply Qlt_le_weak.
Qed.

Lemma sort_ge_trans (a b c : float) :
  sort_gt b a = false -> sort_gt c b = false -> sort_gt c a = false.
Proof.
  destruct a as [| | |p], b as [| | |q], c as [| | |r]; simpl;
    try congruence.
  intros H1 H2. apply negb_false_iff in H1, H2. apply negb_false_iff.
  apply Qle_bool_iff in H1, H2. apply Qle_bool_iff.
  eapply Qle_trans; eauto.
Qed.

Lemma insert_desc_perm (x : nat * float) (l : list (nat * float)) :
  Permutation (insert_desc x l) (x :: l).
Proof.
  induction l as [|y l IH]; simpl; auto.
  destruct (sort_gt (snd y) (snd x)); auto.
  rewrite IH. apply perm_swap.
Qed.

Lemma sort_desc_perm (l : list (nat * float)) : Permutation (sort_desc l) l.
Proof.
  induction l as [|x l IH]; simpl; auto.
  rewrite insert_desc_perm. now constructor.
Qed.

Lemma enumerate_fst (row : list float) :
  map fst (enumerate row) = seq 0 (length row).
Proof.
  unfold enumerate. generalize 0%nat.
  induction row as [|x row IH]; intros n; simpl; auto. now rewrite IH.
Qed.

Lemma argsort_row_perm (row : list float) :
  Permutation (argsort_row row) (seq 0 (length row)).
Proof.
  unfold argsort_row. rewrite <- enumerate_fst.
  apply Permutation_map, sort_desc_perm.
Qed.

Lemma argsort_row_length (row : list float) :
  length (argsort_row row) = length row.
Proof.
  rewrite (Permutation_length (argsort_row_perm row)). apply length_seq.
Qed.

Lemma argsort_row_lt (row : list float) (j : nat) :
  In j (argsort_row row) -> (j < length row)%nat.
Proof.
  intros H. apply (Permutation_in _ (argsort_row_perm row)) in H.
  apply in_seq in H. lia.
Qed.

Lemma insert_desc_sorted (x : nat * float) (l : list (nat * float)) :
  Forall (fun y => (fst x < fst y)%nat) l ->
  StronglySorted pair_before l ->
  StronglySorted pair_before (insert_desc x l).
Proof.
  intros Hidx Hs. induction Hs as [|y l Hs IH Hy]; simpl.
  - repeat constructor.
  - inversion Hidx as [|? ? Hxy Hidx']; subst.
    destruct (sort_gt (snd y) (snd x)) eqn:E.
    + constructor; auto.
      apply (Permutation_Forall (Permutation_sym (insert_desc_perm x l))).
      constructor; auto.
      split; auto using sort_gt_asym.
    + constructor; [constructor; auto|].
      constructor; [split; auto|].
      rewrite Forall_forall in *. intros z Hz. split.
      * destruct (Hy z Hz) as [Hyz _]. eapply sort_ge_trans; eauto.
      * right. now apply Hidx'.
Qed.

Lemma enumerate_from_sorted (row : list float) (n : nat) :
  let l := combine (seq n (length row)) row in
  StronglySorted pair_before (sort_desc l)
  /\ Forall (fun y => (n <= fst y)%nat) (sort_desc l).
Proof.
  revert n. induction row as [|x row IH]; intros n; simpl.
  - split; constructor.
  - destruct (IH (S n)) as [Hs Hi]. split.
    + apply insert_desc_sorted; auto.
    + apply (Permutation_Forall (Permutation_sym (insert_desc_perm _ _))).
      constructor; simpl; auto.
      eapply Forall_impl; [|exact Hi]. simpl. intros; lia.
Qed.

Lemma enumerate_score (row : list float) (n : nat) (p : nat * float) :
  In p (combine (seq n (length row)) row) ->
  (n <= fst p)%nat /\ nth (fst p - n) row NaN = snd p.
Proof.
  revert n. induction row as [|x row IH]; intros n; simpl; [tauto|].
  intros [<-|H]; simpl.
  - rewrite Nat.sub_diag. auto.
  - destruct (IH _ H) as [Hle Hn]. split; [lia|].
    replace (fst p - n)%nat with (S (fst p - S n)) by lia. exact Hn.
Qed.

Lemma StronglySorted_map {A B : Type} (R : A -> A -> Prop)
  (Q : B -> B -> Prop) (f : A -> B) (l : list A) :
  (forall x y, In x l -> In y l -> R x y -> Q (f x) (f y)) ->
  StronglySorted R l -> StronglySorted Q (map f l).
Proof.
  intros Hf Hs. induction Hs as [|x l Hs IH Hx]; simpl; constructor.
  - apply IH. intros; apply Hf; simpl; auto.
  - rewrite Forall_forall in *. intros y Hy.
    apply in_map_iff in Hy. destruct Hy as (z & <- & Hz).
    apply Hf; simpl; auto.
Qed.

Lemma argsort_row_sorted (row : list float) :
  StronglySorted (ranks_before row) (argsort_row row).
Proof.
  unfold argsort_row.
  destruct (enumerate_from_sorted row 0) as [Hs _].
  apply StronglySorted_map with (R := pair_before); auto.
  intros x y Hx Hy Hxy.
  apply (Permutation_in _ (sort_desc_perm _)) in Hx, Hy.
  apply enumerate_score in Hx, Hy.
  destruct Hx as [_ Hx], Hy as [_ Hy].
  rewrite Nat.sub_0_r in Hx, Hy.
  unfold ranks_before, score_at. rewrite Hx, Hy. exact Hxy.
Qed.

(** ** The functions on well-shaped inputs *)

Lemma fold_max_spec (l : list Z) :
  forall x, In (fold_left Z.max l x) (x :: l)
            /\ Forall (fun k => k <= fold_left Z.max l x) (x :: l).
Proof.
  induction l as [|y l IH]; intros x; simpl.
  - split; auto. constructor; auto. lia.
  - destruct (IH (Z.max x y)) as [Hin Hall].
    inversion Hall as [|? ? Hm Hl]; subst. split.
    + destruct Hin as [Hin|Hin]; auto.
      destruct (Z.max_spec x y) as [[_ E]|[_ E]];
        [right; left|left]; congruence.
    + constructor; [lia|]. constructor; [lia|]. exact Hl.
Qed.

Lemma py_max_spec (sizes : list Z) :
  sizes <> [] ->
  exists m, py_max sizes = Ok m /\ In m sizes
            /\ Forall (fun k => k <= m) sizes.
Proof.
  destruct sizes as [|x l]; [contradiction|]. intros _.
  exists (fold_left Z.max l x). split; [reflexivity|].
  apply fold_max_spec.
Qed.

Lemma slice_stop_in_range (n : nat) (m : Z) :
  0 <= m <= Z.of_nat n -> slice_stop n m = Z.to_nat m.
Proof.
  intros H. unfold slice_stop.
  destruct (m <? 0) eqn:E; [apply Z.ltb_lt in E; lia|].
  f_equal. lia.
Qed.

Lemma gather_rows_map {B : Type} (g : B -> list nat) :
  forall (input : list (list Z)) (ss : list B),
    length input = length ss ->
    gather_rows input (map g ss) =
    map (fun p => gather_row (fst p) (g (snd p))) (combine input ss).
Proof.
  induction input as [|r input IH]; intros [|s ss] H; simpl in *;
    try discriminate; auto.
  f_equal. apply IH. lia.
Qed.

Lemma In_firstn {A : Type} (n : nat) (l : list A) (x : A) :
  In x (firstn n l) -> In x l.
Proof.
  intros H. rewrite <- (firstn_skipn n l). apply in_or_app. now left.
Qed.

Lemma top_valid (annotations : Tensor Z) (scores : Tensor float)
  (sizes : list Z) (m : Z) :
  wf scores -> shape annotations = shape scores ->
  py_max sizes = Ok m -> 0 <= m <= Z.of_nat (ncols scores) ->
  annotations_of_top_max_s annotations scores sizes =
  Ok (mkTensor (Z.to_nat m)
        (map (fun p => rank_relevance (fst p) (snd p) m)
           (samples annotations scores))).
Proof.
  intros Hwf Hshape Hmax Hm. unfold shape in Hshape.
  injection Hshape as Hn Hc.
  unfold annotations_of_top_max_s. rewrite Hmax. simpl.
  unfold gather, slice_cols, argsort, nrows in *. simpl.
  rewrite !length_map, Hn, Nat.ltb_irrefl.
  rewrite (slice_stop_in_range _ _ Hm).
  assert (forallb (forallb (fun j => (j <? ncols annotations)%nat))
            (map (firstn (Z.to_nat m)) (map argsort_row (rows scores)))
          = true) as ->.
  { apply forallb_forall. intros ix Hix.
    apply in_map_iff in Hix. destruct Hix as (p & <- & Hp).
    apply in_map_iff in Hp. destruct Hp as (s & <- & Hs).
    apply forallb_forall. intros j Hj. apply Nat.ltb_lt.
    apply In_firstn, argsort_row_lt in Hj.
    unfold wf in Hwf. rewrite Forall_forall in Hwf.
    rewrite (Hwf s Hs) in Hj. lia. }
  f_equal. f_equal. rewrite map_map.
  now rewrite gather_rows_map by (now rewrite Hn).
Qed.

Lemma norm_index_in_range (n : nat) (k : Z) :
  1 <= k <= Z.of_nat n -> norm_index n (k - 1) = Ok (Z.to_nat (k - 1)).
Proof.
  intros H. unfold norm_index.
  assert ((0 <=? k - 1) && (k - 1 <? Z.of_nat n) = true) as ->; auto.
  apply andb_true_iff. split; [apply Z.leb_le|apply Z.ltb_lt]; lia.
Qed.

Lemma select_col_in_range (t : Tensor float) (k : Z) :
  1 <= k <= Z.of_nat (ncols t) -> select_col t (k - 1) = Ok (column_at t k).
Proof.
  intros H. unfold select_col. now rewrite norm_index_in_range.
Qed.

Lemma precision_loop_ok (cumsum : Tensor float) (sizes : list Z) :
  Forall (fun k => 1 <= k <= Z.of_nat (ncols cumsum)) sizes ->
  forall result,
    precision_loop cumsum sizes result =
    Ok (fold_left
          (fun d s =>
             dict_set s
               (fmean (map (fun x => fdiv x (of_Z s)) (column_at cumsum s))) d)
          sizes result).
Proof.
  induction 1 as [|s sizes Hs Hall IH]; intros result; simpl; auto.
  rewrite (select_col_in_range _ _ Hs). simpl. apply IH.
Qed.

Lemma recall_loop_ok (recall : Tensor float) (sizes : list Z) :
  Forall (fun k => 1 <= k <= Z.of_nat (ncols recall)) sizes ->
  forall result,
    recall_loop recall sizes result =
    Ok (fold_left (fun d s => dict_set s (fmean (column_at recall s)) d)
          sizes result).
Proof.
  induction 1 as [|s sizes Hs Hall IH]; intros result; simpl; auto.
  rewrite (select_col_in_range _ _ Hs). simpl. apply IH.
Qed.

Lemma cumsum_from_length (r : list Z) :
  forall acc, length (cumsum_from acc r) = length r.
Proof. induction r; intros; simpl; auto. Qed.

Lemma rank_relevance_length (r : list Z) (s : list float) (m : Z) :
  0 <= m <= Z.of_nat (length s) ->
  length (rank_relevance r s m) = Z.to_nat m.
Proof.
  intros H. unfold rank_relevance, gather_row.
  rewrite length_map, length_firstn, argsort_row_length. lia.
Qed.

Lemma nth_map_of_Z (l : list Z) (i : nat) :
  (i < length l)%nat -> nth i (map of_Z l) NaN = of_Z (nth i l 0).
Proof.
  intros H. rewrite (nth_indep _ NaN (of_Z 0)) by now rewrite length_map.
  apply map_nth.
Qed.

Lemma samples_wf (annotations : Tensor Z) (scores : Tensor float)
  (p : list Z * list float) :
  wf annotations -> wf scores -> In p (samples annotations scores) ->
  length (fst p) = ncols annotations /\ length (snd p) = ncols scores.
Proof.
  unfold wf, samples. rewrite !Forall_forall. intros Ha Hs Hp.
  destruct p as [r s]. split.
  - apply Ha. eapply in_combine_l; eauto.
  - apply Hs. eapply in_combine_r; eauto.
Qed.

Lemma cell_value (r : list Z) (s : list float) (m k : Z) :
  1 <= k <= m -> m <= Z.of_nat (length s) ->
  nth (Z.to_nat (k - 1)) (map of_Z (cumsum_row (rank_relevance r s m))) NaN
  = of_Z (hits r s m k).
Proof.
  intros Hk Hm. unfold hits. apply nth_map_of_Z.
  unfold cumsum_row. rewrite cumsum_from_length.
  rewrite rank_relevance_length by lia. lia.
Qed.

Lemma valid_cutoffs_max (C : nat) (sizes : list Z) :
  valid_cutoffs C sizes ->
  exists m, py_max sizes = Ok m /\ 1 <= m <= Z.of_nat C
            /\ Forall (fun k => 1 <= k <= m) sizes.
Proof.
  intros [Hne Hall]. destruct (py_max_spec sizes Hne) as (m & Hm & Hin & Hle).
  exists m. split; auto. rewrite Forall_forall in *. split.
  - now apply Hall.
  - intros k Hk. specialize (Hall k Hk). specialize (Hle k Hk). lia.
Qed.

Lemma precision_at_valid (annotations : Tensor Z) (scores : Tensor float)
  (sizes : list Z) :
  wf scores -> shape annotations = shape scores ->
  valid_cutoffs (ncols scores) sizes ->
  exists m d,
    py_max sizes = Ok m /\ 1 <= m <= Z.of_nat (ncols scores)
    /\ Forall (fun k => 1 <= k <= m) sizes
    /\ precision_at annotations scores sizes = Ok d
    /\ (forall k, In k sizes ->
         dict_get k d =
         Some (fmean (map (fun p => sample_precision (fst p) (snd p) m k)
                        (samples annotations scores))))
    /\ (forall k, ~ In k sizes -> dict_get k d = None).
Proof.
  intros Hwf Hshape Hvalid.
  destruct (valid_cutoffs_max _ _ Hvalid) as (m & Hmax & Hm & Hall).
  exists m. eexists. repeat (split; [eassumption || lia|]).
  unfold precision_at.
  rewrite (top_valid annotations scores sizes m) by (auto; lia).
  simpl. rewrite precision_loop_ok.
  2:{ simpl. eapply Forall_impl; [|exact Hall]. simpl. intros; lia. }
  split; [reflexivity|].
  split; intros k Hk;
    rewrite (dict_get_fold_set
               (fun s => fmean (map (fun x => fdiv x (of_Z s))
                                  (column_at _ s))));
    [|now rewrite (existsb_eqb_not_In k sizes Hk)].
  rewrite (existsb_eqb_In k sizes Hk). f_equal. f_equal.
  unfold column_at, cumsum_float. simpl. rewrite !map_map.
  apply map_ext_in. intros [r s] Hp. simpl. unfold sample_precision.
  f_equal. apply cell_value.
  - rewrite Forall_forall in Hall. now apply Hall.
  - unfold wf in Hwf. rewrite Forall_forall in Hwf.
    rewrite (Hwf s) by (eapply in_combine_r; eauto). lia.
Qed.

Lemma combine_map_samples {X Y : Type} (G : list Z * list float -> X)
  (H : list Z -> Y) :
  forall (ra : list (list Z)) (rs : list (list float)),
    length ra = length rs ->
    combine (map G (combine ra rs)) (map H ra) =
    map (fun p => (G p, H (fst p))) (combine ra rs).
Proof.
  induction ra as [|r ra IH]; intros [|s rs] E; simpl in *;
    try discriminate; auto.
  f_equal. apply IH. lia.
Qed.

Lemma recall_matrix_valid (annotations : Tensor Z) (scores : Tensor float)
  (sizes : list Z) (m : Z) :
  wf scores -> shape annotations = shape scores ->
  py_max sizes = Ok m -> 0 <= m <= Z.of_nat (ncols scores) ->
  recall_matrix annotations scores sizes =
  Ok (mkTensor (Z.to_nat m)
        (map (fun p =>
                map (fun x => fdiv x (of_Z (total (fst p))))
                  (map of_Z (cumsum_row (rank_relevance (fst p) (snd p) m))))
           (samples annotations scores))).
Proof.
  intros Hwf Hshape Hmax Hm. unfold recall_matrix.
  rewrite (top_valid annotations scores sizes m) by auto. simpl.
  injection Hshape as Hn Hc. unfold nrows in Hn.
  unfold div_rows, cumsum_float, num_rel, nrows, samples. simpl.
  rewrite !length_map, length_combine, <- Hn, Nat.min_id, Nat.eqb_refl.
  f_equal. f_equal. rewrite map_map.
  rewrite (combine_map_samples
             (fun p => map of_Z
                         (cumsum_row (rank_relevance (fst p) (snd p) m)))
             (fun r => fold_left Z.add r 0)) by exact Hn.
  rewrite map_map. reflexivity.
Qed.

Lemma recall_cell (r : list Z) (s : list float) (m k : Z) :
  1 <= k <= m -> m <= Z.of_nat (length s) ->
  nth (Z.to_nat (k - 1))
    (map (fun x => fdiv x (of_Z (total r)))
       (map of_Z (cumsum_row (rank_relevance r s m)))) NaN
  = sample_recall r s m k.
Proof.
  intros Hk Hm.
  change NaN with ((fun x => fdiv x (of_Z (total r))) NaN) at 1.
  rewrite map_nth. unfold sample_recall. f_equal. now apply cell_value.
Qed.

Lemma recall_at_valid (annotations : Tensor Z) (scores : Tensor float)
  (sizes : list Z) :
  wf scores -> shape annotations = shape scores ->
  valid_cutoffs (ncols scores) sizes ->
  exists m d,
    py_max sizes = Ok m /\ 1 <= m <= Z.of_nat (ncols scores)
    /\ Forall (fun k => 1 <= k <= m) sizes
    /\ recall_at annotations scores sizes = Ok d
    /\ (forall k, In k sizes ->
         dict_get k d =
         Some (fmean (map (fun p => sample_recall (fst p) (snd p) m k)
                        (samples annotations scores))))
    /\ (forall k, ~ In k sizes -> dict_get k d = None).
Proof.
  intros Hwf Hshape Hvalid.
  destruct (valid_cutoffs_max _ _ Hvalid) as (m & Hmax & Hm & Hall).
  exists m. eexists. repeat (split; [eassumption || lia|]).
  unfold recall_at.
  rewrite (recall_matrix_valid annotations scores sizes m) by (auto; lia).
  simpl. rewrite recall_loop_ok.
  2:{ simpl. eapply Forall_impl; [|exact Hall]. simpl. intros; lia. }
  split; [reflexivity|].
  split; intros k Hk;
    rewrite (dict_get_fold_set (fun s => fmean (column_at _ s)));
    [|now rewrite (existsb_eqb_not_In k sizes Hk)].
  rewrite (existsb_eqb_In k sizes Hk). f_equal. f_equal.
  unfold column_at. simpl. rewrite !map_map.
  apply map_ext_in. intros [r s] Hp. simpl. apply recall_cell.
  - rewrite Forall_forall in Hall. now apply Hall.
  - unfold wf in Hwf. rewrite Forall_forall in Hwf.
    rewrite (Hwf s) by (eapply in_combine_r; eauto). lia.
Qed.

(** ** NaN in sums and means *)

Lemma fadd_NaN_r (x : float) : fadd x NaN = NaN.
Proof. now destruct x. Qed.

Lemma fold_fadd_NaN (l : list float) : fold_left fadd l NaN = NaN.
Proof. induction l as [|x l IH]; simpl; auto. Qed.

Lemma fold_fadd_In_NaN (l : list float) :
  In NaN l -> forall acc, fold_left fadd l acc = NaN.
Proof.
  induction l as [|x l IH]; intros H acc; [contradiction|]. simpl.
  destruct H as [->|H]; auto.
  rewrite fadd_NaN_r. apply fold_fadd_NaN.
Qed.

Lemma fmean_In_NaN (l : list float) : In NaN l -> fmean l = NaN.
Proof.
  intros H. unfold fmean, fsum. now rewrite fold_fadd_In_NaN.
Qed.

(** ** A sample without relevant class (C5) *)

Lemma total_zeros (r : list Z) :
  Forall (fun a => a = 0) r -> forall acc, fold_left Z.add r acc = acc.
Proof.
  induction 1 as [|a r Ha Hr IH]; intros acc; simpl; auto.
  subst a. rewrite IH. lia.
Qed.

Lemma gather_row_zeros (r : list Z) (ix : list nat) :
  Forall (fun a => a = 0) r -> Forall (fun a => a = 0) (gather_row r ix).
Proof.
  intros H. unfold gather_row. rewrite Forall_map. apply Forall_forall.
  intros j _. destruct (nth_in_or_default j r 0) as [Hin|Hd]; auto.
  rewrite Forall_forall in H. now apply H.
Qed.

Lemma cumsum_zeros (r : list Z) :
  Forall (fun a => a = 0) r -> Forall (fun a => a = 0) (cumsum_from 0 r).
Proof.
  induction 1 as [|a r Ha Hr IH]; simpl; constructor; subst; auto.
Qed.

Lemma recall_row_zeros (r : list Z) (s : list float) (m : Z) :
  Forall (fun a => a = 0) r ->
  Forall (fun x => x = NaN)
    (map (fun x => fdiv x (of_Z (total r)))
       (map of_Z (cumsum_row (rank_relevance r s m)))).
Proof.
  intros H. unfold total. rewrite (total_zeros r H).
  rewrite !Forall_map.
  eapply Forall_impl;
    [|apply cumsum_zeros, gather_row_zeros; exact H].
  simpl. intros a ->. reflexivity.
Qed.

Lemma sample_recall_zeros (r : list Z) (s : list float) (m k : Z) :
  Forall (fun a => a = 0) r -> sample_recall r s m k = NaN.
Proof.
  intros H. unfold sample_recall, hits, total.
  rewrite (total_zeros r H).
  assert (nth (Z.to_nat (k - 1)) (cumsum_row (rank_relevance r s m)) 0 = 0)
    as ->; [|reflexivity].
  pose proof (cumsum_zeros _ (gather_row_zeros r
                (firstn (Z.to_nat m) (argsort_row s)) H)) as Hz.
  fold (rank_relevance r s m) in Hz. fold (cumsum_row (rank_relevance r s m)) in Hz.
  destruct (nth_in_or_default (Z.to_nat (k - 1))
              (cumsum_row (rank_relevance r s m)) 0) as [Hin|Hd]; auto.
  rewrite Forall_forall in Hz. now apply Hz.
Qed.

Lemma nth_samples (annotations : Tensor Z) (scores : Tensor float) (i : nat) :
  nrows annotations = nrows scores ->
  nth i (samples annotations scores) ([], []) =
  (nth i (rows annotations) [], nth i (rows scores) []).
Proof. intros H. apply combine_nth. exact H. Qed.

(** C5: when a sample of the batch has an all-zero relevance row (and the
    inputs are otherwise as the spec declares them: equal shapes, cutoffs
    between 1 and the number of classes), every entry of that sample's row
    of the recall matrix is 0/0 = NaN, and the batch mean that [recall_at]
    returns is NaN for every requested cutoff. *)
Theorem recall_at_nan_propagates (annotations : Tensor Z)
  (scores : Tensor float) (sizes : list Z) (i : nat) :
  wf scores -> shape annotations = shape scores ->
  valid_cutoffs (ncols scores) sizes ->
  (i < nrows annotations)%nat ->
  Forall (fun a => a = 0) (nth i (rows annotations) []) ->
  exists recall d,
    recall_matrix annotations scores sizes = Ok recall
    /\ Forall (fun x => x = NaN) (nth i (rows recall) [])
    /\ recall_at annotations scores sizes = Ok d
    /\ forall k, In k sizes -> dict_get k d = Some NaN.
Proof.
  intros Hwf Hshape Hvalid Hi Hzero.
  destruct (recall_at_valid _ _ _ Hwf Hshape Hvalid)
    as (m & d & Hmax & Hm & Hall & Hd & Hget & _).
  pose proof Hshape as Hshape'. injection Hshape' as Hn Hc.
  assert (length (samples annotations scores) = nrows annotations) as Hlen.
  { unfold samples, nrows in *. rewrite length_combine, <- Hn. lia. }
  eexists. exists d.
  split; [apply (recall_matrix_valid _ _ _ m); auto; lia|]. simpl.
  split; [|split; auto].
  - set (F := fun p : list Z * list float =>
               map (fun x => fdiv x (of_Z (total (fst p))))
                 (map of_Z (cumsum_row (rank_relevance (fst p) (snd p) m)))).
    rewrite (nth_indep _ [] (F ([], []))) by (rewrite length_map; lia).
    rewrite map_nth, nth_samples by exact Hn. unfold F. simpl.
    now apply recall_row_zeros.
  - intros k Hk. rewrite (Hget k Hk). f_equal. apply fmean_In_NaN.
    apply in_map_iff.
    exists (nth i (samples annotations scores) ([], [])). split.
    + rewrite nth_samples by exact Hn. simpl.
      now apply sample_recall_zeros.
    + apply nth_In. lia.
Qed.

Lemma recall_at_nan_propagates_witness :
  exists recall d,
    recall_matrix A_empty_row S_two_rows [1; 2] = Ok recall
    /\ Forall (fun x => x = NaN) (nth 0 (rows recall) [])
    /\ recall_at A_empty_row S_two_rows [1; 2] = Ok d
    /\ forall k, In k [1; 2] -> dict_get k d = Some NaN.
Proof.
  apply (recall_at_nan_propagates A_empty_row S_two_rows [1; 2] 0).
  - repeat constructor.
  - reflexivity.
  - split; [discriminate|].
    unfold S_two_rows. repeat constructor; simpl; lia.
  - unfold A_empty_row, nrows. simpl. lia.
  - simpl. repeat constructor.
Defined.

(** ** Counting relevant classes *)

Lemma cumsum_from_nth (l : list Z) :
  forall (acc : Z) (i : nat),
    (i < length l)%nat ->
    nth i (cumsum_from acc l) 0 = fold_left Z.add (firstn (S i) l) acc.
Proof.
  induction l as [|x l IH]; intros acc i Hi; simpl in Hi; [lia|].
  destruct i as [|i]; simpl.
  - reflexivity.
  - apply IH. lia.
Qed.

Lemma hits_firstn (r : list Z) (s : list float) (m k : Z) :
  1 <= k <= m -> m <= Z.of_nat (length s) ->
  hits r s m k =
  fold_left Z.add (firstn (Z.to_nat k) (rank_relevance r s m)) 0.
Proof.
  intros Hk Hm. unfold hits, cumsum_row.
  rewrite cumsum_from_nth by (rewrite rank_relevance_length; lia).
  do 2 f_equal. lia.
Qed.

Lemma fold_add_bounds (l : list Z) :
  Forall (fun a => 0 <= a <= 1) l ->
  forall acc, acc <= fold_left Z.add l acc <= acc + Z.of_nat (length l).
Proof.
  induction 1 as [|a l Ha Hl IH]; intros acc; simpl fold_left.
  - simpl. lia.
  - specialize (IH (acc + a)). simpl length. lia.
Qed.

Lemma gather_row_binary (r : list Z) (ix : list nat) :
  Forall (fun a => a = 0 \/ a = 1) r ->
  Forall (fun a => 0 <= a <= 1) (gather_row r ix).
Proof.
  intros H. unfold gather_row. rewrite Forall_map. apply Forall_forall.
  intros j _. destruct (nth_in_or_default j r 0) as [Hin|Hd]; [|lia].
  rewrite Forall_forall in H. destruct (H _ Hin); lia.
Qed.

Lemma Forall_firstn {A : Type} (P : A -> Prop) (n : nat) (l : list A) :
  Forall P l -> Forall P (firstn n l).
Proof.
  rewrite !Forall_forall. intros H x Hx. eapply H, In_firstn, Hx.
Qed.

Lemma hits_bounds (r : list Z) (s : list float) (m k : Z) :
  Forall (fun a => a = 0 \/ a = 1) r ->
  1 <= k <= m -> m <= Z.of_nat (length s) ->
  0 <= hits r s m k <= k.
Proof.
  intros Hb Hk Hm. rewrite hits_firstn by auto.
  pose proof (fold_add_bounds
                (firstn (Z.to_nat k) (rank_relevance r s m))
                (Forall_firstn _ _ _ (gather_row_binary r _ Hb)) 0) as H.
  rewrite length_firstn in H. lia.
Qed.

(** ** Values between 0 and 1 (C10) *)

Lemma fdiv_of_Z_pos (a : Q) (k : Z) :
  0 < k -> fdiv (Fin a) (of_Z k) = Fin (Qred (a / inject_Z k)).
Proof.
  intros Hk. unfold fdiv, of_Z, Qsign. simpl.
  destruct (k ?= 0) eqn:E; auto.
  apply Z.compare_eq in E. lia.
Qed.

Lemma quotient_in_unit (a : Q) (k : Z) :
  0 < k -> (0 <= a <= inject_Z k)%Q -> in_unit (fdiv (Fin a) (of_Z k)).
Proof.
  intros Hk [H0 H1]. rewrite fdiv_of_Z_pos by auto. unfold in_unit.
  rewrite Qred_correct.
  assert (0 < inject_Z k)%Q as Hpos.
  { change 0%Q with (inject_Z 0). now rewrite <- Zlt_Qlt. }
  split.
  - apply Qle_shift_div_l; auto; now rewrite Qmult_0_l.
  - apply Qle_shift_div_r; auto; now rewrite Qmult_1_l.
Qed.

Lemma sample_precision_in_unit (r : list Z) (s : list float) (m k : Z) :
  Forall (fun a => a = 0 \/ a = 1) r ->
  1 <= k <= m -> m <= Z.of_nat (length s) ->
  in_unit (sample_precision r s m k).
Proof.
  intros Hb Hk Hm. unfold sample_precision, of_Z at 1.
  destruct (hits_bounds r s m k Hb Hk Hm) as [H0 H1].
  apply quotient_in_unit; [lia|].
  change 0%Q with (inject_Z 0). now rewrite <- !Zle_Qle.
Qed.

Lemma fold_fadd_in_unit (l : list float) :
  Forall in_unit l ->
  forall a, exists b,
    fold_left fadd l (Fin a) = Fin b
    /\ (a <= b <= a + inject_Z (Z.of_nat (length l)))%Q.
Proof.
  induction 1 as [|x l Hx Hl IH]; intros a.
  - exists a. simpl. split; auto. unfold inject_Z. lra.
  - destruct x as [| | |q]; simpl in Hx; try contradiction.
    simpl fold_left. destruct (IH (Qred (a + q))) as (b & Hb & Hle & Hge).
    exists b. split; auto.
    rewrite Qred_correct in Hle, Hge.
    simpl length. rewrite Nat2Z.inj_succ, <- Z.add_1_r, inject_Z_plus.
    change (inject_Z 1) with 1%Q. lra.
Qed.

Lemma fmean_in_unit (l : list float) :
  l <> [] -> Forall in_unit l -> in_unit (fmean l).
Proof.
  intros Hne Hall. unfold fmean, fsum, of_nat.
  destruct (fold_fadd_in_unit l Hall 0) as (b & -> & Hb).
  apply quotient_in_unit.
  - destruct l; [contradiction|]. simpl length. lia.
  - lra.
Qed.

(** C10, as stated, fails: for a batch without any sample (equal shapes,
    a valid cutoff) the value returned under the cutoff is the mean of an
    empty vector, NaN. *)
Lemma precision_at_no_sample_nan :
  shape A_no_sample = shape S_no_sample
  /\ binary A_no_sample /\ Forall (fun k => 1 <= k <= 2) [1]
  /\ ~ precision_in_unit A_no_sample S_no_sample [1].
Proof.
  split; [reflexivity|]. split; [constructor|].
  split; [repeat constructor; lia|].
  intros [_ H]. destruct (H [(1, NaN)] eq_refl) as [_ Hunit].
  apply (Hunit 1 NaN). reflexivity.
Qed.

(** C10, amended: for a binary relevance matrix and a score matrix of equal
    shape with at least one sample, and cutoffs all between 1 and the number
    of classes, every value of the map that [precision_at] returns is a
    number between 0 and 1, never NaN (and a map is returned, with a value
    under every requested cutoff, as soon as one cutoff is requested). *)
Theorem precision_at_in_unit (annotations : Tensor Z) (scores : Tensor float)
  (sizes : list Z) :
  wf scores -> shape annotations = shape scores -> binary annotations ->
  Forall (fun k => 1 <= k <= Z.of_nat (ncols scores)) sizes ->
  (1 <= nrows annotations)%nat ->
  precision_in_unit annotations scores sizes.
Proof.
  intros Hwf Hshape Hbin Hrange Hn.
  destruct sizes as [|k0 sizes'] eqn:Esizes.
  { split; [intros H; now contradiction H|]. intros d Hd. discriminate Hd. }
  rewrite <- Esizes in *.
  assert (valid_cutoffs (ncols scores) sizes) as Hvalid.
  { split; auto. rewrite Esizes. discriminate. }
  destruct (precision_at_valid _ _ _ Hwf Hshape Hvalid)
    as (m & d & Hmax & Hm & Hall & Hd & Hget & Hnone).
  split; [intros _; now exists d|].
  intros d' Hd'. rewrite Hd in Hd'. injection Hd' as <-. split.
  - intros k Hk. eexists. apply (Hget k Hk).
  - intros k v Hv.
    destruct (in_dec Z.eq_dec k sizes) as [Hk|Hk];
      [|rewrite (Hnone k Hk) in Hv; discriminate].
    rewrite (Hget k Hk) in Hv. injection Hv as <-.
    injection Hshape as Hrows Hcols. unfold nrows in *.
    apply fmean_in_unit.
    + unfold samples.
      destruct (rows annotations), (rows scores); simpl in *;
        try lia; discriminate.
    + rewrite Forall_map. apply Forall_forall. intros [r s] Hp. simpl.
      rewrite Forall_forall in Hall.
      apply sample_precision_in_unit.
      * unfold binary in Hbin. rewrite Forall_forall in Hbin.
        apply Hbin. eapply in_combine_l; eauto.
      * now apply Hall.
      * unfold wf in Hwf. rewrite Forall_forall in Hwf.
        rewrite (Hwf s) by (eapply in_combine_r; eauto). lia.
Qed.

Lemma precision_at_in_unit_witness :
  precision_in_unit A_empty_row S_two_rows [1; 2].
Proof.
  apply (precision_at_in_unit A_empty_row S_two_rows [1; 2]).
  - repeat constructor.
  - reflexivity.
  - unfold binary, A_empty_row. simpl.
    repeat (apply Forall_cons || apply Forall_nil); auto.
  - unfold S_two_rows. repeat constructor; simpl; lia.
  - unfold A_empty_row, nrows. simpl. lia.
Defined.

(** ** Recall@k grows with k (C9) *)

Lemma fold_add_firstn_mono (l : list Z) :
  Forall (fun a => 0 <= a <= 1) l ->
  forall (n1 n2 : nat) (acc : Z),
    (n1 <= n2)%nat ->
    fold_left Z.add (firstn n1 l) acc <= fold_left Z.add (firstn n2 l) acc.
Proof.
  induction 1 as [|a l Ha Hl IH]; intros n1 n2 acc Hn.
  - rewrite !firstn_nil. lia.
  - destruct n1 as [|n1], n2 as [|n2]; simpl; try lia.
    + pose proof (fold_add_bounds (firstn n2 l)
                    (Forall_firstn _ n2 l Hl) (acc + a)). lia.
    + apply IH. lia.
Qed.

Lemma hits_mono (r : list Z) (s : list float) (m k1 k2 : Z) :
  Forall (fun a => a = 0 \/ a = 1) r ->
  1 <= k1 -> k1 <= k2 -> k2 <= m -> m <= Z.of_nat (length s) ->
  hits r s m k1 <= hits r s m k2.
Proof.
  intros Hb H1 H12 H2 Hm. rewrite !hits_firstn by lia.
  apply fold_add_firstn_mono; [|lia].
  apply gather_row_binary, Hb.
Qed.

Lemma sample_recall_mono (r : list Z) (s : list float) (m k1 k2 : Z) :
  Forall (fun a => a = 0 \/ a = 1) r -> 0 < total r ->
  1 <= k1 -> k1 <= k2 -> k2 <= m -> m <= Z.of_nat (length s) ->
  fle (sample_recall r s m k1) (sample_recall r s m k2) = true.
Proof.
  intros Hb Hpos H1 H12 H2 Hm. unfold sample_recall.
  unfold of_Z at 1 3. rewrite !fdiv_of_Z_pos by auto. unfold fle.
  apply Qle_bool_iff. rewrite !Qred_correct. unfold Qdiv.
  apply Qmult_le_compat_r.
  - rewrite <- Zle_Qle. now apply hits_mono.
  - apply Qinv_le_0_compat. change 0%Q with (inject_Z 0).
    rewrite <- Zle_Qle. lia.
Qed.

(** C9, as stated, fails: for a sample without relevant class (a valid
    input: binary relevance, equal shapes, cutoffs 1 <= 2 within the two
    classes) Recall@1 and Recall@2 are both NaN, and NaN <= NaN is false. *)
Lemma recall_not_monotone_without_relevant :
  shape A_none_relevant = shape S_single
  /\ binary A_none_relevant /\ valid_cutoffs 2 [1; 2]
  /\ ~ recall_monotone_at A_none_relevant S_single [1; 2] 0 1 2.
Proof.
  split; [reflexivity|]. split.
  { unfold binary. simpl. repeat (apply Forall_cons || apply Forall_nil); auto. }
  split; [split; [discriminate|repeat constructor; lia]|].
  intros (recall & col1 & col2 & Hr & H1 & H2 & Hle).
  vm_compute in Hr. injection Hr as <-.
  vm_compute in H1. injection H1 as <-.
  vm_compute in H2. injection H2 as <-.
  discriminate Hle.
Qed.

(** C9, amended: for a sample with at least one relevant class, in a batch
    of binary relevance and equal shapes, the per-sample Recall@k computed by
    [recall_at] is non-decreasing in the cutoff: for requested cutoffs
    k1 <= k2 between 1 and the number of classes,
    Recall@k1(sample) <= Recall@k2(sample). *)
Theorem recall_monotone (annotations : Tensor Z) (scores : Tensor float)
  (sizes : list Z) (i : nat) (k1 k2 : Z) :
  wf scores -> shape annotations = shape scores -> binary annotations ->
  valid_cutoffs (ncols scores) sizes ->
  In k1 sizes -> In k2 sizes -> k1 <= k2 ->
  (i < nrows annotations)%nat ->
  0 < total (nth i (rows annotations) []) ->
  recall_monotone_at annotations scores sizes i k1 k2.
Proof.
  intros Hwf Hshape Hbin Hvalid Hk1 Hk2 Hle Hi Hpos.
  destruct (valid_cutoffs_max _ _ Hvalid) as (m & Hmax & Hm & Hall).
  rewrite Forall_forall in Hall.
  pose proof (Hall k1 Hk1) as Hr1. pose proof (Hall k2 Hk2) as Hr2.
  pose proof Hshape as Hshape'. injection Hshape' as Hn Hc.
  assert (length (samples annotations scores) = nrows annotations) as Hlen.
  { unfold samples, nrows in *. rewrite length_combine, <- Hn. lia. }
  unfold recall_monotone_at.
  rewrite (recall_matrix_valid annotations scores sizes m) by (auto; lia).
  do 3 eexists. split; [reflexivity|].
  split; [apply select_col_in_range; simpl; lia|].
  split; [apply select_col_in_range; simpl; lia|].
  unfold column_at. simpl. rewrite !map_map.
  set (p := nth i (samples annotations scores) ([], [])).
  assert (forall k, 1 <= k <= m ->
            nth i
              (map (fun x : list Z * list float =>
                      nth (Z.to_nat (k - 1))
                        (map (fun y => fdiv y (of_Z (total (fst x))))
                           (map of_Z
                              (cumsum_row
                                 (rank_relevance (fst x) (snd x) m)))) NaN)
                 (samples annotations scores)) NaN
            = sample_recall (fst p) (snd p) m k) as Hcell.
  { intros k Hk.
    set (g := fun x : list Z * list float => nth (Z.to_nat (k - 1)) _ NaN).
    rewrite (nth_indep _ NaN (g ([], []))) by (rewrite length_map; lia).
    rewrite map_nth. fold p. unfold g. apply recall_cell; auto.
    unfold p. rewrite nth_samples by exact Hn. simpl.
    unfold wf in Hwf. rewrite Forall_forall in Hwf.
    rewrite (Hwf (nth i (rows scores) [])); [lia|].
    apply nth_In. unfold nrows in *. lia. }
  rewrite !Hcell by lia.
  assert (fst p = nth i (rows annotations) []) as Hp.
  { unfold p. now rewrite nth_samples by exact Hn. }
  apply sample_recall_mono; try lia.
  - rewrite Hp. unfold binary in Hbin. rewrite Forall_forall in Hbin.
    apply Hbin, nth_In. exact Hi.
  - now rewrite Hp.
  - unfold p. rewrite nth_samples by exact Hn. simpl.
    unfold wf in Hwf. rewrite Forall_forall in Hwf.
    rewrite (Hwf (nth i (rows scores) [])); [lia|].
    apply nth_In. unfold nrows in *. lia.
Qed.

Lemma recall_monotone_witness :
  recall_monotone_at A_empty_row S_two_rows [1; 2] 1 1 2.
Proof.
  apply (recall_monotone A_empty_row S_two_rows [1; 2] 1 1 2).
  - repeat constructor.
  - reflexivity.
  - unfold binary, A_empty_row. simpl.
    repeat (apply Forall_cons || apply Forall_nil); auto.
  - split; [discriminate|].
    unfold S_two_rows. repeat constructor; simpl; lia.
  - simpl. auto.
  - simpl. auto.
  - lia.
  - unfold A_empty_row, nrows. simpl. lia.
  - unfold A_empty_row, total. simpl. lia.
Defined.

(** ** Tied scores (C1) *)

Lemma gather_row_seq (r : list Z) :
  gather_row r (seq 0 (length r)) = r.
Proof.
  unfold gather_row. induction r as [|x r IH]; simpl; auto.
  f_equal. rewrite <- seq_shift, map_map. exact IH.
Qed.

Lemma map_fst_combine {A B : Type} (la : list A) :
  forall lb : list B, length la = length lb -> map fst (combine la lb) = la.
Proof.
  induction la as [|a la IH]; intros [|b lb] H; simpl in *;
    try discriminate; auto.
  f_equal. apply IH. lia.
Qed.

(** C1, as stated, fails: with tied scores and the only true label on the
    last of three classes, Precision@1 is 0 (the top-ranked class is class
    0), not the clipped count 1/1. *)
Lemma tied_precision_is_not_clipped :
  Forall tied (rows S_tied)
  /\ ~ precision_at_returns clipped_precision A_last_relevant S_tied [1].
Proof.
  split.
  - repeat constructor. intros x y Hx Hy. simpl in Hx, Hy.
    destruct Hx as [<-|[<-|[<-|[]]]], Hy as [<-|[<-|[<-|[]]]]; reflexivity.
  - intros (d & Hd & Hget). vm_compute in Hd. injection Hd as <-.
    specialize (Hget 1 (or_introl eq_refl)). vm_compute in Hget.
    discriminate Hget.
Qed.

(** ** mean_average_precision skips the classes without positive (C4) *)

Lemma average_precision_classes_ok (y_true : Tensor Z)
  (y_score : Tensor float) (classes : list nat) :
  Forall (fun c => (c < ncols y_true)%nat) classes ->
  average_precision_classes y_true y_score classes =
  Ok (map (fun c =>
             average_precision (column 0 c y_true) (column NaN c y_score))
        classes).
Proof.
  induction 1 as [|c classes Hc Hall IH]; simpl; auto.
  apply Nat.ltb_lt in Hc. now rewrite Hc, IH.
Qed.

Lemma fadd_zero_normal (x y : float) :
  fadd (fadd x y) (Fin 0) = fadd x y.
Proof.
  destruct x as [| | |a], y as [| | |b]; try reflexivity.
  unfold fadd. f_equal. apply Qred_complete. rewrite Qred_correct. ring.
Qed.

Lemma fold_fadd_skip_nan (a : list float) :
  forall acc, fadd acc (Fin 0) = acc ->
    fold_left fadd (map (fun x => if is_nan x then Fin 0 else x) a) acc =
    fold_left fadd (filter not_nan a) acc.
Proof.
  induction a as [|x a IH]; intros acc Hacc; simpl; auto.
  destruct x as [| | |q]; simpl.
  - rewrite Hacc. now apply IH.
  - apply IH, fadd_zero_normal.
  - apply IH, fadd_zero_normal.
  - apply IH, fadd_zero_normal.
Qed.

Lemma nanmean_skips (a : list float) :
  nanmean a = fmean (filter not_nan a).
Proof.
  unfold nanmean, fmean, fsum. fold not_nan.
  now rewrite fold_fadd_skip_nan.
Qed.

Lemma precision_sum_zeros (ranked : list Z) :
  Forall (fun a => a = 0) ranked ->
  forall rank hits acc, precision_sum ranked rank hits acc = acc.
Proof.
  induction 1 as [|y ranked Hy Hr IH]; intros rank h acc; simpl; auto.
  subst y. simpl. apply IH.
Qed.

Lemma filter_nonzero_zeros (l : list Z) :
  Forall (fun a => a = 0) l -> filter (fun y => negb (y =? 0)) l = [].
Proof.
  induction 1 as [|y l Hy Hl IH]; simpl; auto. subst y. simpl. exact IH.
Qed.

Lemma average_precision_no_positive (y_true : list Z) (y_score : list float) :
  Forall (fun a => a = 0) y_true ->
  average_precision y_true y_score = NaN.
Proof.
  intros H. unfold average_precision.
  rewrite precision_sum_zeros, filter_nonzero_zeros; auto.
  apply (gather_row_zeros y_true (argsort_row y_score) H).
Qed.






(** * Further properties of the metric functions *)

(** ** The keys of the returned map *)

Lemma dict_get_set_cases {V : Type} (k s : Z) (v : V) (d : dict V) :
  dict_get k (dict_set s v d) = if k =? s then Some v else dict_get k d.
Proof.
  destruct (k =? s) eqn:E.
  - apply Z.eqb_eq in E. subst s. apply dict_get_set_same.
  - apply Z.eqb_neq in E. now apply dict_get_set_other.
Qed.

Lemma has_key_set {V : Type} (k s : Z) (v : V) (d : dict V) :
  has_key k (dict_set s v d) <-> k = s \/ has_key k d.
Proof.
  unfold has_key. rewrite dict_get_set_cases.
  destruct (k =? s) eqn:E.
  - apply Z.eqb_eq in E. split; eauto.
  - apply Z.eqb_neq in E. split; [auto|]. intros [H|H]; [contradiction|auto].
Qed.

Lemma precision_loop_keys (cumsum : Tensor float) (sizes : list Z) :
  forall result d,
    precision_loop cumsum sizes result = Ok d ->
    forall k, has_key k d <-> In k sizes \/ has_key k result.
Proof.
  induction sizes as [|s sizes IH]; intros result d H k; simpl in H.
  - injection H as <-. simpl. tauto.
  - destruct (select_col cumsum (s - 1)) as [col|e]; simpl in H;
      [|discriminate].
    rewrite (IH _ _ H k), has_key_set. simpl. intuition auto.
Qed.

Lemma recall_loop_keys (recall : Tensor float) (sizes : list Z) :
  forall result d,
    recall_loop recall sizes result = Ok d ->
    forall k, has_key k d <-> In k sizes \/ has_key k result.
Proof.
  induction sizes as [|s sizes IH]; intros result d H k; simpl in H.
  - injection H as <-. simpl. tauto.
  - destruct (select_col recall (s - 1)) as [col|e]; simpl in H;
      [|discriminate].
    rewrite (IH _ _ H k), has_key_set. simpl. intuition auto.
Qed.

Lemma has_key_nil {V : Type} (k : Z) : ~ has_key k (@nil (Z * V)).
Proof. intros [v H]. discriminate H. Qed.

Lemma recall_at_keys (annotations : Tensor Z) (scores : Tensor float)
  (sizes : list Z) (r : dict float) :
  recall_at annotations scores sizes = Ok r ->
  forall k, has_key k r <-> In k sizes.
Proof.
  unfold recall_at. intros H k.
  destruct (recall_matrix annotations scores sizes) as [recall|e];
    simpl in H; [|discriminate].
  rewrite (recall_loop_keys _ _ _ _ H k).
  pose proof (@has_key_nil float k). tauto.
Qed.

(** X1: whenever [precision_at] or [recall_at] returns a map, without any
    assumption on the inputs, at least one cutoff was requested, the score
    matrix has no more rows than the relevance matrix, and the keys of the
    map are exactly the requested cutoffs. *)
Theorem returned_map_keys (annotations : Tensor Z) (scores : Tensor float)
  (sizes : list Z) (d : dict float) :
  precision_at annotations scores sizes = Ok d
  \/ recall_at annotations scores sizes = Ok d ->
  sizes <> []
  /\ (nrows scores <= nrows annotations)%nat
  /\ forall k, has_key k d <-> In k sizes.
Proof.
  pose proof (top_shape annotations scores sizes) as Htop.
  unfold precision_at, recall_at, recall_matrix.
  destruct (annotations_of_top_max_s annotations scores sizes) as [top|e];
    simpl; [|intros [H|H]; discriminate H].
  destruct (Htop top eq_refl) as (m & Hmax & _ & _ & Hrows).
  assert (sizes <> []) as Hne.
  { intros ->. discriminate Hmax. }
  intros [H|H]; (split; [exact Hne|]); (split; [exact Hrows|]); intros k.
  - rewrite (precision_loop_keys _ _ _ _ H k).
    pose proof (@has_key_nil float k). tauto.
  - destruct (div_rows (cumsum_float top) (num_rel annotations))
      as [recall|e]; simpl in H; [|discriminate].
    rewrite (recall_loop_keys _ _ _ _ H k).
    pose proof (@has_key_nil float k). tauto.
Qed.


Lemma returned_map_keys_witness :
  [1; 2] <> []
  /\ (nrows S_ex <= nrows A_ex)%nat
  /\ forall k, has_key k [(1, Fin 1); (2, Fin 1)] <-> In k [1; 2].
Proof.
  apply (returned_map_keys A_ex S_ex [1; 2]). left. reflexivity.
Defined.

(** ** Retrieving every class *)

Lemma fold_add_perm (l l' : list Z) :
  Permutation l l' ->
  forall acc, fold_left Z.add l acc = fold_left Z.add l' acc.
Proof.
  induction 1 as [|x l l' Hp IH|x y l|l l' l'' H1 IH1 H2 IH2];
    intros acc; simpl; auto.
  - f_equal. lia.
  - now rewrite IH1, IH2.
Qed.

Lemma total_ranked (r : list Z) (s : list float) :
  length r = length s -> total (ranked r s) = total r.
Proof.
  intros Hlen. unfold total, ranked.
  rewrite <- (gather_row_seq r) at 2. unfold gather_row.
  apply fold_add_perm, Permutation_map.
  rewrite Hlen. apply argsort_row_perm.
Qed.

Lemma rank_relevance_ranked (r : list Z) (s : list float) (m : Z) :
  rank_relevance r s m = firstn (Z.to_nat m) (ranked r s).
Proof.
  unfold rank_relevance, ranked, gather_row. symmetry. apply firstn_map.
Qed.

Lemma ranked_length (r : list Z) (s : list float) :
  length (ranked r s) = length s.
Proof.
  unfold ranked, gather_row. now rewrite length_map, argsort_row_length.
Qed.

Lemma hits_ranked (r : list Z) (s : list float) (m k : Z) :
  1 <= k <= m -> m <= Z.of_nat (length s) ->
  hits r s m k = total (firstn (Z.to_nat k) (ranked r s)).
Proof.
  intros Hk Hm. rewrite hits_firstn by auto.
  rewrite rank_relevance_ranked, firstn_firstn. unfold total.
  do 2 f_equal. lia.
Qed.

Lemma hits_all_classes (r : list Z) (s : list float) :
  length r = length s -> (1 <= length s)%nat ->
  hits r s (Z.of_nat (length s)) (Z.of_nat (length s)) = total r.
Proof.
  intros Hlen Hpos. rewrite hits_ranked by lia.
  rewrite Nat2Z.id, <- (ranked_length r s), firstn_all.
  now apply total_ranked.
Qed.

Lemma max_is_all_classes (C : nat) (sizes : list Z) (m : Z) :
  In (Z.of_nat C) sizes -> Forall (fun k => 1 <= k <= m) sizes ->
  m <= Z.of_nat C -> m = Z.of_nat C.
Proof.
  intros Hin Hall Hm. rewrite Forall_forall in Hall.
  specialize (Hall _ Hin). lia.
Qed.

(** X2: with well-shaped inputs and valid cutoffs, when the number of classes
    C is itself a requested cutoff, the value [precision_at] returns under C
    is the batch mean of (number of relevant classes of the sample)/C,
    whatever the scores. *)
Theorem precision_at_all_classes (annotations : Tensor Z)
  (scores : Tensor float) (sizes : list Z) :
  wf annotations -> wf scores -> shape annotations = shape scores ->
  valid_cutoffs (ncols scores) sizes ->
  In (Z.of_nat (ncols scores)) sizes ->
  exists d,
    precision_at annotations scores sizes = Ok d
    /\ dict_get (Z.of_nat (ncols scores)) d =
       Some (fmean (map (fun r => fdiv (of_Z (total r))
                                    (of_Z (Z.of_nat (ncols scores))))
                      (rows annotations))).
Proof.
  intros Hwfa Hwf Hshape Hvalid HC.
  destruct (precision_at_valid _ _ _ Hwf Hshape Hvalid)
    as (m & d & Hmax & Hm & Hall & Hd & Hget & _).
  assert (m = Z.of_nat (ncols scores)) as ->
    by (eapply max_is_all_classes; eauto; lia).
  exists d. split; auto. rewrite (Hget _ HC). do 2 f_equal.
  injection Hshape as Hn Hc. unfold nrows in Hn.
  rewrite <- (map_fst_combine (rows annotations) (rows scores) Hn) at 1.
  rewrite map_map. apply map_ext_in. intros [r s] Hp.
  destruct (samples_wf annotations scores (r, s) Hwfa Hwf Hp) as [Hr Hs].
  simpl in Hr, Hs. cbn [fst snd]. unfold sample_precision.
  rewrite <- Hs, hits_all_classes by lia. reflexivity.
Qed.

Lemma precision_at_all_classes_witness :
  exists d,
    precision_at A_empty_row S_two_rows [1; 2] = Ok d
    /\ dict_get (Z.of_nat (ncols S_two_rows)) d =
       Some (fmean (map (fun r => fdiv (of_Z (total r))
                                    (of_Z (Z.of_nat (ncols S_two_rows))))
                      (rows A_empty_row))).
Proof.
  apply (precision_at_all_classes A_empty_row S_two_rows [1; 2]).
  - repeat constructor.
  - repeat constructor.
  - reflexivity.
  - split; [discriminate|].
    unfold S_two_rows. repeat constructor; simpl; lia.
  - simpl. auto.
Defined.

Lemma Qred_inject_Z (z : Z) : Qred (inject_Z z) = inject_Z z.
Proof.
  unfold Qred, inject_Z.
  pose proof (Z.ggcd_gcd z 1) as Hg.
  pose proof (Z.ggcd_correct_divisors z 1) as Hd.
  destruct (Z.ggcd z 1) as (g, (aa, bb)). simpl in *.
  rewrite Z.gcd_1_r in Hg. subst g. destruct Hd as [Ha Hb].
  replace aa with z by lia. replace bb with 1 by lia. reflexivity.
Qed.

Lemma fdiv_self (t : Z) : 0 < t -> fdiv (of_Z t) (of_Z t) = Fin 1.
Proof.
  intros Ht. unfold of_Z at 1. rewrite fdiv_of_Z_pos by auto. f_equal.
  change 1%Q with (Qred 1). apply Qred_complete.
  apply Qmult_inv_r. intros H. unfold Qeq in H. simpl in H. lia.
Qed.

Lemma fold_fadd_ones (l : list float) :
  Forall (fun x => x = Fin 1) l ->
  forall n : Z,
    fold_left fadd l (Fin (inject_Z n)) =
    Fin (inject_Z (n + Z.of_nat (length l))).
Proof.
  induction 1 as [|x l Hx Hl IH]; intros n.
  - simpl. now rewrite Z.add_0_r.
  - subst x. cbn [fold_left].
    change (fadd (Fin (inject_Z n)) (Fin 1))
      with (Fin (Qred (inject_Z n + 1))).
    replace (Qred (inject_Z n + 1)) with (inject_Z (n + 1)).
    + rewrite IH. do 2 f_equal. simpl length. lia.
    + rewrite <- (Qred_inject_Z (n + 1)). apply Qred_complete.
      rewrite inject_Z_plus. reflexivity.
Qed.

Lemma fmean_ones (l : list float) :
  l <> [] -> Forall (fun x => x = Fin 1) l -> fmean l = Fin 1.
Proof.
  intros Hne Hall. unfold fmean, fsum.
  change (Fin 0) with (Fin (inject_Z 0)).
  rewrite (fold_fadd_ones l Hall 0). simpl Z.add.
  apply (fdiv_self (Z.of_nat (length l))).
  destruct l; [contradiction|]. simpl length. lia.
Qed.

Lemma samples_nonempty (annotations : Tensor Z) (scores : Tensor float) :
  nrows annotations = nrows scores -> (1 <= nrows annotations)%nat ->
  samples annotations scores <> [].
Proof.
  unfold nrows, samples.
  destruct (rows annotations), (rows scores); simpl; intros; try lia;
    discriminate.
Qed.

(** X3: with well-shaped inputs, valid cutoffs and at least one sample,
    when every sample has a relevant class and the number of classes C is a
    requested cutoff, [recall_at] returns exactly 1 under C. *)
Theorem recall_at_all_classes (annotations : Tensor Z)
  (scores : Tensor float) (sizes : list Z) :
  wf annotations -> wf scores -> shape annotations = shape scores ->
  valid_cutoffs (ncols scores) sizes ->
  In (Z.of_nat (ncols scores)) sizes ->
  (1 <= nrows annotations)%nat -> all_relevant annotations ->
  exists d,
    recall_at annotations scores sizes = Ok d
    /\ dict_get (Z.of_nat (ncols scores)) d = Some (Fin 1).
Proof.
  intros Hwfa Hwf Hshape Hvalid HC Hn1 Hrel.
  destruct (recall_at_valid _ _ _ Hwf Hshape Hvalid)
    as (m & d & Hmax & Hm & Hall & Hd & Hget & _).
  assert (m = Z.of_nat (ncols scores)) as ->
    by (eapply max_is_all_classes; eauto; lia).
  exists d. split; auto. rewrite (Hget _ HC). f_equal.
  injection Hshape as Hn Hc.
  apply fmean_ones.
  - intros H. apply map_eq_nil in H. revert H.
    now apply samples_nonempty.
  - rewrite Forall_map. apply Forall_forall. intros [r s] Hp.
    destruct (samples_wf annotations scores (r, s) Hwfa Hwf Hp) as [Hr Hs].
    simpl in Hr, Hs. cbn [fst snd]. unfold sample_recall.
    rewrite <- Hs, hits_all_classes by lia.
    apply fdiv_self. unfold all_relevant in Hrel.
    rewrite Forall_forall in Hrel. apply Hrel.
    eapply in_combine_l; eauto.
Qed.

Lemma recall_at_all_classes_witness :
  exists d,
    recall_at A_two_rows S_two_rows [2; 1] = Ok d
    /\ dict_get (Z.of_nat (ncols S_two_rows)) d = Some (Fin 1).
Proof.
  apply (recall_at_all_classes A_two_rows S_two_rows [2; 1]).
  - repeat constructor.
  - repeat constructor.
  - reflexivity.
  - split; [discriminate|].
    unfold S_two_rows. repeat constructor; simpl; lia.
  - simpl. auto.
  - unfold A_two_rows, nrows. simpl. lia.
  - unfold all_relevant, A_two_rows, total. simpl.
    repeat constructor.
Defined.

(** ** Recall between 0 and 1 *)

Lemma hits_le_total (r : list Z) (s : list float) (m k : Z) :
  Forall (fun a => a = 0 \/ a = 1) r -> length r = length s ->
  1 <= k <= m -> m <= Z.of_nat (length s) ->
  0 <= hits r s m k <= total r.
Proof.
  intros Hb Hlen Hk Hm. split; [now apply hits_bounds|].
  rewrite hits_ranked by auto. rewrite <- (total_ranked r s Hlen).
  unfold total. rewrite <- (firstn_all (ranked r s)) at 2.
  apply fold_add_firstn_mono.
  - apply gather_row_binary, Hb.
  - rewrite ranked_length. lia.
Qed.

Lemma sample_recall_in_unit (r : list Z) (s : list float) (m k : Z) :
  Forall (fun a => a = 0 \/ a = 1) r -> length r = length s ->
  0 < total r -> 1 <= k <= m -> m <= Z.of_nat (length s) ->
  in_unit (sample_recall r s m k).
Proof.
  intros Hb Hlen Hpos Hk Hm. unfold sample_recall, of_Z at 1.
  destruct (hits_le_total r s m k Hb Hlen Hk Hm) as [H0 H1].
  apply quotient_in_unit; auto.
  change 0%Q with (inject_Z 0). now rewrite <- !Zle_Qle.
Qed.

(** X4: for a binary relevance matrix and a score matrix of equal shape with
    at least one sample, valid cutoffs, and at least one relevant class in
    every sample, [recall_at] returns a map and every value of the map is a
    number between 0 and 1, never NaN. *)
Theorem recall_at_in_unit (annotations : Tensor Z) (scores : Tensor float)
  (sizes : list Z) :
  wf annotations -> wf scores -> shape annotations = shape scores ->
  binary annotations -> valid_cutoffs (ncols scores) sizes ->
  (1 <= nrows annotations)%nat -> all_relevant annotations ->
  exists d,
    recall_at annotations scores sizes = Ok d
    /\ forall k v, dict_get k d = Some v -> in_unit v.
Proof.
  intros Hwfa Hwf Hshape Hbin Hvalid Hn1 Hrel.
  destruct (recall_at_valid _ _ _ Hwf Hshape Hvalid)
    as (m & d & Hmax & Hm & Hall & Hd & Hget & Hnone).
  exists d. split; auto. intros k v Hv.
  destruct (in_dec Z.eq_dec k sizes) as [Hk|Hk];
    [|rewrite (Hnone k Hk) in Hv; discriminate].
  rewrite (Hget k Hk) in Hv. injection Hv as <-.
  injection Hshape as Hn Hc.
  apply fmean_in_unit.
  - intros H. apply map_eq_nil in H. revert H. now apply samples_nonempty.
  - rewrite Forall_map. apply Forall_forall. intros [r s] Hp.
    destruct (samples_wf annotations scores (r, s) Hwfa Hwf Hp) as [Hr Hs].
    simpl in Hr, Hs. cbn [fst snd].
    unfold binary in Hbin. unfold all_relevant in Hrel.
    rewrite Forall_forall in Hbin, Hrel, Hall.
    pose proof (in_combine_l _ _ _ _ Hp) as Hin.
    apply sample_recall_in_unit; auto; lia.
Qed.

Lemma recall_at_in_unit_witness :
  exists d,
    recall_at A_two_rows S_two_rows [2; 1] = Ok d
    /\ forall k v, dict_get k d = Some v -> in_unit v.
Proof.
  apply (recall_at_in_unit A_two_rows S_two_rows [2; 1]).
  - repeat constructor.
  - repeat constructor.
  - reflexivity.
  - unfold binary, A_two_rows. simpl.
    repeat (apply Forall_cons || apply Forall_nil); auto.
  - split; [discriminate|].
    unfold S_two_rows. repeat constructor; simpl; lia.
  - unfold A_two_rows, nrows. simpl. lia.
  - unfold all_relevant, A_two_rows, total. simpl. repeat constructor.
Defined.

(** ** A perfect ranking *)

Lemma fold_add_acc (l : list Z) :
  forall acc, fold_left Z.add l acc = acc + fold_left Z.add l 0.
Proof.
  induction l as [|x l IH]; intros acc; simpl; [lia|].
  rewrite (IH (acc + x)), (IH x). lia.
Qed.

Lemma total_cons (a : Z) (l : list Z) : total (a :: l) = a + total l.
Proof. unfold total. simpl. apply fold_add_acc. Qed.

Lemma ranked_nonincreasing (r : list Z) (s : list float) :
  Forall (fun a => a = 0 \/ a = 1) r -> length r = length s ->
  separated r s ->
  StronglySorted (fun a b => b <= a) (ranked r s).
Proof.
  intros Hb Hlen Hsep. unfold ranked, gather_row.
  apply StronglySorted_map with (R := ranks_before s);
    [|apply argsort_row_sorted].
  intros x y Hx Hy [Hge _].
  apply argsort_row_lt in Hx, Hy. rewrite <- Hlen in Hx, Hy.
  rewrite Forall_forall in Hb.
  destruct (Hb _ (nth_In r 0 Hx)) as [Ex|Ex],
           (Hb _ (nth_In r 0 Hy)) as [Ey|Ey]; try lia.
  rewrite (Hsep y x Hy Hx Ey Ex) in Hge. discriminate.
Qed.

Lemma nonincreasing_prefix (l : list Z) :
  StronglySorted (fun a b => b <= a) l ->
  Forall (fun a => 0 <= a <= 1) l ->
  forall n : nat, total (firstn n l) = Z.min (Z.of_nat n) (total l).
Proof.
  induction 1 as [|a l Hs IH Ha]; intros Hb n.
  - rewrite firstn_nil. unfold total. simpl. lia.
  - inversion Hb as [|? ? Hab Hbl]; subst.
    pose proof (fold_add_bounds l Hbl 0) as Hbound. fold (total l) in Hbound.
    destruct n as [|n]; simpl firstn.
    + rewrite total_cons. unfold total at 1. simpl. lia.
    + rewrite !total_cons, (IH Hbl n).
      assert (a = 1 \/ (a = 0 /\ total l = 0)) as [->|[-> Hz]]; [|lia|lia].
      destruct (Z.eq_dec a 1) as [|Hne]; auto. right. split; [lia|].
      unfold total. apply total_zeros.
      rewrite Forall_forall in *. intros b Hin.
      specialize (Ha b Hin). specialize (Hbl b Hin). lia.
Qed.

Lemma hits_separated (r : list Z) (s : list float) (m k : Z) :
  Forall (fun a => a = 0 \/ a = 1) r -> length r = length s ->
  separated r s -> 1 <= k <= m -> m <= Z.of_nat (length s) ->
  hits r s m k = Z.min (total r) k.
Proof.
  intros Hb Hlen Hsep Hk Hm. rewrite hits_ranked by auto.
  rewrite nonincreasing_prefix.
  - rewrite total_ranked by auto. lia.
  - now apply ranked_nonincreasing.
  - apply gather_row_binary, Hb.
Qed.

(** X5: for a binary relevance matrix and scores of equal shape in which,
    in every sample, the relevant classes score strictly above the others,
    the value [precision_at] returns under a valid cutoff k is the batch mean
    of (number of relevant classes of the sample, clipped to k)/k. *)
Theorem precision_at_perfect_ranking (annotations : Tensor Z)
  (scores : Tensor float) (sizes : list Z) :
  wf annotations -> wf scores -> shape annotations = shape scores ->
  binary annotations -> valid_cutoffs (ncols scores) sizes ->
  perfectly_ranked annotations scores ->
  precision_at_returns clipped_precision annotations scores sizes.
Proof.
  intros Hwfa Hwf Hshape Hbin Hvalid Hperf.
  destruct (precision_at_valid _ _ _ Hwf Hshape Hvalid)
    as (m & d & Hmax & Hm & Hall & Hd & Hget & _).
  exists d. split; auto. intros k Hk. rewrite (Hget k Hk). do 2 f_equal.
  injection Hshape as Hn Hc. unfold nrows in Hn.
  rewrite <- (map_fst_combine (rows annotations) (rows scores) Hn) at 1.
  rewrite map_map. apply map_ext_in. intros [r s] Hp.
  destruct (samples_wf annotations scores (r, s) Hwfa Hwf Hp) as [Hr Hs].
  simpl in Hr, Hs. cbn [fst snd].
  unfold binary in Hbin. unfold perfectly_ranked in Hperf.
  rewrite Forall_forall in Hbin, Hperf, Hall.
  unfold sample_precision, clipped_precision.
  pose proof (in_combine_l _ _ _ _ Hp) as Hin.
  rewrite hits_separated; auto; try lia.
  apply (Hperf (r, s) Hp).
Qed.

Lemma perfect_example : perfectly_ranked A_perfect S_perfect.
Proof.
  unfold perfectly_ranked, samples, A_perfect, S_perfect. simpl.
  repeat constructor; simpl; intros i j Hi Hj Ei Ej;
    destruct i as [|[|[|i]]]; simpl in Hi, Ei; try lia; try discriminate;
    destruct j as [|[|[|j]]]; simpl in Hj, Ej; try lia; try discriminate;
    reflexivity.
Qed.

Lemma precision_at_perfect_ranking_witness :
  precision_at_returns clipped_precision A_perfect S_perfect [1; 2; 3].
Proof.
  apply (precision_at_perfect_ranking A_perfect S_perfect [1; 2; 3]).
  - repeat constructor.
  - repeat constructor.
  - reflexivity.
  - unfold binary, A_perfect. simpl.
    repeat (apply Forall_cons || apply Forall_nil); auto.
  - split; [discriminate|].
    unfold S_perfect. repeat constructor; simpl; lia.
  - exact perfect_example.
Defined.

(** X6: under the same perfect ranking, with at least one sample and at
    least one relevant class in every sample, [recall_at] returns exactly 1
    under every requested cutoff that is at least the number of relevant
    classes of every sample. *)
Theorem recall_at_perfect_ranking (annotations : Tensor Z)
  (scores : Tensor float) (sizes : list Z) (k : Z) :
  wf annotations -> wf scores -> shape annotations = shape scores ->
  binary annotations -> valid_cutoffs (ncols scores) sizes ->
  perfectly_ranked annotations scores ->
  (1 <= nrows annotations)%nat -> all_relevant annotations ->
  In k sizes -> Forall (fun r => total r <= k) (rows annotations) ->
  exists d,
    recall_at annotations scores sizes = Ok d
    /\ dict_get k d = Some (Fin 1).
Proof.
  intros Hwfa Hwf Hshape Hbin Hvalid Hperf Hn1 Hrel Hk Hcover.
  destruct (recall_at_valid _ _ _ Hwf Hshape Hvalid)
    as (m & d & Hmax & Hm & Hall & Hd & Hget & _).
  exists d. split; auto. rewrite (Hget k Hk). f_equal.
  injection Hshape as Hn Hc.
  apply fmean_ones.
  - intros H. apply map_eq_nil in H. revert H. now apply samples_nonempty.
  - rewrite Forall_map. apply Forall_forall. intros [r s] Hp.
    destruct (samples_wf annotations scores (r, s) Hwfa Hwf Hp) as [Hr Hs].
    simpl in Hr, Hs. cbn [fst snd].
    unfold binary in Hbin. unfold perfectly_ranked in Hperf.
    unfold all_relevant in Hrel.
    rewrite Forall_forall in Hbin, Hperf, Hall, Hrel, Hcover.
    pose proof (in_combine_l _ _ _ _ Hp) as Hin.
    unfold sample_recall.
    rewrite hits_separated; auto; try lia; [|apply (Hperf (r, s) Hp)].
    rewrite Z.min_l by (now apply Hcover).
    apply fdiv_self. now apply Hrel.
Qed.

Lemma recall_at_perfect_ranking_witness :
  exists d,
    recall_at A_perfect S_perfect [1; 2; 3] = Ok d
    /\ dict_get 2 d = Some (Fin 1).
Proof.
  apply (recall_at_perfect_ranking A_perfect S_perfect [1; 2; 3] 2).
  - repeat constructor.
  - repeat constructor.
  - reflexivity.
  - unfold binary, A_perfect. simpl.
    repeat (apply Forall_cons || apply Forall_nil); auto.
  - split; [discriminate|].
    unfold S_perfect. repeat constructor; simpl; lia.
  - exact perfect_example.
  - unfold A_perfect, nrows. simpl. lia.
  - unfold all_relevant, A_perfect, total. simpl. repeat constructor.
  - simpl. auto.
  - unfold A_perfect, total. simpl. repeat constructor; simpl; lia.
Defined.

(** ** Batch-Scoped metrics keep the last batch only *)

Lemma keys_set {V : Type} (x k : Z) (v : V) (d : dict V) :
  In x (map fst (dict_set k v d)) <-> x = k \/ In x (map fst d).
Proof.
  induction d as [|[k' v'] d IH]; simpl.
  - intuition auto.
  - destruct (k =? k') eqn:E; simpl.
    + apply Z.eqb_eq in E. subst k'. intuition auto.
    + rewrite IH. intuition auto.
Qed.

Lemma dict_set_nodup {V : Type} (k : Z) (v : V) (d : dict V) :
  NoDup (map fst d) -> NoDup (map fst (dict_set k v d)).
Proof.
  induction d as [|[k' v'] d IH]; simpl; intros H.
  - repeat constructor. auto.
  - inversion H as [|? ? Hnin Hd]; subst.
    destruct (k =? k') eqn:E; simpl.
    + apply Z.eqb_eq in E. subst k'. now constructor.
    + apply Z.eqb_neq in E. constructor; auto.
      rewrite keys_set. intros [->|Hin]; auto.
Qed.

Lemma recall_loop_nodup (recall : Tensor float) (sizes : list Z) :
  forall result d,
    recall_loop recall sizes result = Ok d ->
    NoDup (map fst result) -> NoDup (map fst d).
Proof.
  induction sizes as [|s sizes IH]; intros result d H Hnd; simpl in H.
  - now injection H as <-.
  - destruct (select_col recall (s - 1)) as [col|e]; simpl in H;
      [|discriminate].
    apply (IH _ _ H). now apply dict_set_nodup.
Qed.

Lemma recall_at_nodup (annotations : Tensor Z) (scores : Tensor float)
  (sizes : list Z) (r : dict float) :
  recall_at annotations scores sizes = Ok r -> NoDup (map fst r).
Proof.
  unfold recall_at.
  destruct (recall_matrix annotations scores sizes) as [recall|e];
    simpl; [|discriminate].
  intros H. apply (recall_loop_nodup _ _ _ _ H). constructor.
Qed.

Lemma dict_get_absent {V : Type} (k : Z) (d : dict V) :
  ~ In k (map fst d) -> dict_get k d = None.
Proof.
  induction d as [|[k' v'] d IH]; simpl; auto. intros H.
  destruct (k =? k') eqn:E.
  - apply Z.eqb_eq in E. subst k'. tauto.
  - apply IH. tauto.
Qed.

(** [d.update(other)] gives [other]'s value under the keys of [other] and
    keeps [d]'s value under the others. *)
Lemma dict_get_update {V : Type} (k : Z) (other : dict V) :
  NoDup (map fst other) ->
  forall d,
    dict_get k (dict_update d other) =
    match dict_get k other with
    | Some v => Some v
    | None => dict_get k d
    end.
Proof.
  unfold dict_update.
  induction other as [|[k0 v0] other IH]; intros Hnd d; simpl; auto.
  inversion Hnd as [|? ? Hnin Hnd']; subst.
  rewrite (IH Hnd'). simpl. rewrite dict_get_set_cases.
  destruct (k =? k0) eqn:E.
  - apply Z.eqb_eq in E. subst k0. now rewrite dict_get_absent.
  - reflexivity.
Qed.

Lemma dict_get_published (k : Z) (r : dict float) :
  dict_get k (published r) = option_map Some (dict_get k r).
Proof.
  induction r as [|[k' v'] r IH]; simpl; auto.
  destruct (k =? k'); auto.
Qed.

Lemma published_keys (r : dict float) : map fst (published r) = map fst r.
Proof. unfold published. rewrite map_map. reflexivity. Qed.

Lemma reset_keys_within (self : RecallAtBatch.t) :
  keys_within (RecallAtBatch.reset self).
Proof.
  intros k [v Hv]. simpl in *.
  rewrite (dict_get_fold_set (fun _ : Z => @None float)) in Hv.
  destruct (existsb (Z.eqb k) (RecallAtBatch._sorted_sizes self)) eqn:E;
    [|discriminate].
  apply existsb_exists in E. destruct E as (x & Hx & Hk).
  apply Z.eqb_eq in Hk. now subst x.
Qed.

Lemma recall_batch_update_spec (self self' : RecallAtBatch.t) (b : Output) :
  RecallAtBatch.update self b = Ok self' ->
  RecallAtBatch._sorted_sizes self' = RecallAtBatch._sorted_sizes self
  /\ exists r,
       recall_at (fst b) (snd b) (RecallAtBatch._sorted_sizes self) = Ok r
       /\ forall k,
            dict_get k (RecallAtBatch._recall_at self') =
            match dict_get k r with
            | Some v => Some (Some v)
            | None => dict_get k (RecallAtBatch._recall_at self)
            end.
Proof.
  destruct b as [y_true y_score]. unfold RecallAtBatch.update. simpl.
  destruct (recall_at y_true y_score (RecallAtBatch._sorted_sizes self))
    as [r|e] eqn:E; simpl; [|discriminate].
  intros H. injection H as <-. simpl. split; auto.
  exists r. split; auto. intros k.
  rewrite dict_get_update
    by (rewrite published_keys; eapply recall_at_nodup; eauto).
  rewrite dict_get_published. now destruct (dict_get k r).
Qed.

Lemma recall_batch_update_keys (self self' : RecallAtBatch.t) (b : Output) :
  RecallAtBatch.update self b = Ok self' ->
  keys_within self -> keys_within self'.
Proof.
  intros H Hk. destruct (recall_batch_update_spec _ _ _ H)
    as (Hs & r & Hr & Hget).
  intros k [v Hv]. rewrite Hs. rewrite Hget in Hv.
  destruct (dict_get k r) as [x|] eqn:E.
  - apply (recall_at_keys _ _ _ r Hr). now exists x.
  - apply Hk. now exists v.
Qed.

Lemma recall_batch_updates_keys (batches : list Output) :
  forall self s,
    recall_batch_updates self batches = Ok s ->
    keys_within self ->
    keys_within s
    /\ RecallAtBatch._sorted_sizes s = RecallAtBatch._sorted_sizes self.
Proof.
  induction batches as [|b batches IH]; intros self s H Hk; simpl in H.
  - injection H as <-. auto.
  - destruct (RecallAtBatch.update self b) as [self'|e] eqn:E; simpl in H;
      [|discriminate].
    destruct (IH _ _ H (recall_batch_update_keys _ _ _ E Hk)) as [H1 H2].
    split; auto. rewrite H2.
    now destruct (recall_batch_update_spec _ _ _ E).
Qed.

Lemma recall_batch_updates_app (l1 l2 : list Output) :
  forall self,
    recall_batch_updates self (l1 ++ l2) =
    s <- recall_batch_updates self l1 ;; recall_batch_updates s l2.
Proof.
  induction l1 as [|b l1 IH]; intros self; simpl; auto.
  destruct (RecallAtBatch.update self b); simpl; auto.
Qed.

Lemma map_batch_updates_app (l1 l2 : list Output) :
  forall self,
    map_batch_updates self (l1 ++ l2) =
    s <- map_batch_updates self l1 ;; map_batch_updates s l2.
Proof.
  induction l1 as [|b l1 IH]; intros self; simpl; auto.
  destruct (MeanAveragePrecisionBatch.update self b); simpl; auto.
Qed.

(** X7: a Batch-Scoped metric reflects the last batch only.  After
    [reset()] and any sequence of successful [update()] calls, what
    [compute()] returns is, key by key, the result of [recall_at] on the last
    batch (with the metric's cutoffs), resp. the value of
    [mean_average_precision] on the last batch: nothing of the earlier
    batches or of the unset sentinel is left. *)
Theorem batch_metric_last_batch_only (batches : list Output) (b : Output)
  (r0 s : RecallAtBatch.t)
  (m0 s' : MeanAveragePrecisionBatch.t) :
  recall_batch_updates (RecallAtBatch.reset r0) (batches ++ [b]) = Ok s ->
  map_batch_updates (MeanAveragePrecisionBatch.reset m0) (batches ++ [b])
    = Ok s' ->
  (exists r,
     recall_at (fst b) (snd b) (RecallAtBatch._sorted_sizes r0) = Ok r
     /\ forall k, dict_get k (RecallAtBatch._recall_at s)
                  = dict_get k (published r))
  /\ MeanAveragePrecisionBatch.compute s'
     = mean_average_precision (fst b) (snd b).
Proof.
  intros Hr Hm. split.
  - rewrite recall_batch_updates_app in Hr.
    destruct (recall_batch_updates (RecallAtBatch.reset r0) batches)
      as [s1|e] eqn:E1; simpl in Hr; [|discriminate].
    destruct (recall_batch_updates_keys _ _ _ E1 (reset_keys_within r0))
      as [Hkeys Hsizes]. simpl in Hsizes.
    destruct (RecallAtBatch.update s1 b) as [s2|e] eqn:E2; simpl in Hr;
      [|discriminate].
    injection Hr as <-.
    destruct (recall_batch_update_spec _ _ _ E2) as (_ & r & Hrec & Hget).
    rewrite Hsizes in Hrec. exists r. split; auto. intros k.
    rewrite Hget, dict_get_published.
    destruct (dict_get k r) as [v|] eqn:Ek; auto. simpl.
    destruct (dict_get k (RecallAtBatch._recall_at s1)) as [v|] eqn:Es; auto.
    exfalso.
    assert (has_key k r) as [x Hx].
    { apply (recall_at_keys _ _ _ r Hrec).
      rewrite <- Hsizes. apply Hkeys. now exists v. }
    congruence.
  - rewrite map_batch_updates_app in Hm.
    destruct (map_batch_updates (MeanAveragePrecisionBatch.reset m0) batches)
      as [s1|e]; simpl in Hm; [|discriminate].
    destruct b as [a sc]. simpl in *.
    destruct (mean_average_precision a sc) as [v|e]; simpl in *;
      [|discriminate].
    now injection Hm as <-.
Qed.

Lemma batch_metric_last_batch_only_witness :
  (exists r,
     recall_at (fst batch3) (snd batch3)
       (RecallAtBatch._sorted_sizes (RecallAtBatch.init [2; 1])) = Ok r
     /\ forall k,
          dict_get k
            [(1, Some (Fin (1 # 4))); (2, Some (Fin 1))]
          = dict_get k (published r))
  /\ MeanAveragePrecisionBatch.compute
       (MeanAveragePrecisionBatch.mk (Fin 1))
     = mean_average_precision (fst batch3) (snd batch3).
Proof.
  apply (batch_metric_last_batch_only [batch1; batch2] batch3
           (RecallAtBatch.init [2; 1])
           (RecallAtBatch.mk [1; 2] [(1, Some (Fin (1 # 4))); (2, Some (Fin 1))])
           MeanAveragePrecisionBatch.init
           (MeanAveragePrecisionBatch.mk (Fin 1))).
  - reflexivity.
  - reflexivity.
Defined.

(** ** The cutoffs of a Recall@k metric, in ascending order *)

Lemma insert_asc_perm (x : Z) (l : list Z) :
  Permutation (insert_asc x l) (x :: l).
Proof.
  induction l as [|y l IH]; simpl; auto.
  destruct (y <? x); auto. rewrite IH. apply perm_swap.
Qed.

Lemma sorted_perm (l : list Z) : Permutation (sorted l) l.
Proof.
  induction l as [|x l IH]; simpl; auto.
  rewrite insert_asc_perm. now constructor.
Qed.

Lemma insert_asc_sorted (x : Z) (l : list Z) :
  StronglySorted Z.le l -> StronglySorted Z.le (insert_asc x l).
Proof.
  induction 1 as [|y l Hs IH Hy]; simpl.
  - repeat constructor.
  - destruct (y <? x) eqn:E.
    + apply Z.ltb_lt in E. constructor; auto.
      apply (Permutation_Forall (Permutation_sym (insert_asc_perm x l))).
      constructor; auto. lia.
    + apply Z.ltb_ge in E. constructor; [constructor; auto|].
      constructor; auto.
      eapply Forall_impl; [|exact Hy]. simpl. intros; lia.
Qed.

Lemma sorted_sorted (l : list Z) : StronglySorted Z.le (sorted l).
Proof.
  induction l as [|x l IH]; simpl; [constructor|].
  now apply insert_asc_sorted.
Qed.

Lemma has_key_In {V : Type} (k : Z) (d : dict V) :
  has_key k d <-> In k (map fst d).
Proof.
  unfold has_key. induction d as [|[k' v'] d IH]; simpl.
  - split; [intros [v H]; discriminate|tauto].
  - destruct (k =? k') eqn:E.
    + apply Z.eqb_eq in E. subst k'. split; eauto.
    + apply Z.eqb_neq in E. rewrite IH. intuition congruence.
Qed.

Lemma keys_set_present {V : Type} (k : Z) (v : V) (d : dict V) :
  In k (map fst d) -> map fst (dict_set k v d) = map fst d.
Proof.
  induction d as [|[k' v'] d IH]; simpl; [tauto|]. intros H.
  destruct (k =? k') eqn:E; simpl.
  - apply Z.eqb_eq in E. now subst k'.
  - apply Z.eqb_neq in E. f_equal. apply IH.
    destruct H as [H|H]; [congruence|auto].
Qed.

Lemma keys_set_ascending {V : Type} (s : Z) (v : V) (d : dict V) :
  StronglySorted Z.lt (map fst d) ->
  Forall (fun k => k <= s) (map fst d) ->
  StronglySorted Z.lt (map fst (dict_set s v d))
  /\ Forall (fun k => k <= s) (map fst (dict_set s v d)).
Proof.
  induction d as [|[k' v'] d IH]; simpl; intros Hs Hle.
  - split; repeat constructor. lia.
  - inversion Hs as [|? ? Hs' Hlt]; subst.
    inversion Hle as [|? ? Hk Hle']; subst.
    destruct (s =? k') eqn:E; simpl.
    + apply Z.eqb_eq in E. subst k'. split; auto.
    + apply Z.eqb_neq in E. destruct (IH Hs' Hle') as [H1 H2].
      split; [|constructor; auto].
      constructor; auto. apply Forall_forall. intros x Hx.
      apply keys_set in Hx. destruct Hx as [->|Hx]; [lia|].
      rewrite Forall_forall in Hlt. now apply Hlt.
Qed.

Lemma reset_keys_ascending (sizes : list Z) :
  StronglySorted Z.le sizes ->
  forall d : dict (option float),
    StronglySorted Z.lt (map fst d) ->
    Forall (fun k => Forall (fun s => k <= s) sizes) (map fst d) ->
    StronglySorted Z.lt
      (map fst (fold_left (fun d s => dict_set s None d) sizes d)).
Proof.
  induction 1 as [|s sizes Hs IH Hle]; intros d Hd Hbound; simpl; auto.
  assert (Forall (fun k => k <= s) (map fst d)) as Hds.
  { eapply Forall_impl; [|exact Hbound]. simpl. intros k Hk.
    now inversion Hk. }
  destruct (keys_set_ascending s (@None float) d Hd Hds) as [H1 H2].
  apply IH; auto.
  apply Forall_forall. intros k Hk. apply keys_set in Hk.
  destruct Hk as [->|Hk]; auto.
  rewrite Forall_forall in Hbound. specialize (Hbound k Hk).
  now inversion Hbound.
Qed.

Lemma dict_update_keys {V : Type} (other : dict V) :
  forall d : dict V,
    (forall k, In k (map fst other) -> In k (map fst d)) ->
    map fst (dict_update d other) = map fst d.
Proof.
  unfold dict_update.
  induction other as [|[k v] other IH]; intros d H; simpl; auto.
  assert (map fst (dict_set k v d) = map fst d) as E
    by (apply keys_set_present, H; simpl; auto).
  rewrite IH; auto. intros x Hx. rewrite E. apply H. simpl. auto.
Qed.

Lemma recall_batch_update_same_keys (self self' : RecallAtBatch.t)
  (b : Output) :
  RecallAtBatch.update self b = Ok self' ->
  (forall k, In k (RecallAtBatch._sorted_sizes self) ->
             In k (map fst (RecallAtBatch._recall_at self))) ->
  map fst (RecallAtBatch._recall_at self')
  = map fst (RecallAtBatch._recall_at self)
  /\ RecallAtBatch._sorted_sizes self' = RecallAtBatch._sorted_sizes self.
Proof.
  destruct b as [y_true y_score]. unfold RecallAtBatch.update. simpl.
  destruct (recall_at y_true y_score (RecallAtBatch._sorted_sizes self))
    as [r|e] eqn:E; simpl; [|discriminate].
  intros H Hin. injection H as <-. simpl. split; auto.
  apply dict_update_keys. intros k Hk. rewrite published_keys in Hk.
  apply Hin. apply (recall_at_keys _ _ _ r E).
  now apply has_key_In.
Qed.

Lemma recall_batch_updates_same_keys (batches : list Output) :
  forall self s,
    recall_batch_updates self batches = Ok s ->
    (forall k, In k (RecallAtBatch._sorted_sizes self) ->
               In k (map fst (RecallAtBatch._recall_at self))) ->
    map fst (RecallAtBatch._recall_at s)
    = map fst (RecallAtBatch._recall_at self).
Proof.
  induction batches as [|b batches IH]; intros self s H Hin; simpl in H.
  - now injection H as <-.
  - destruct (RecallAtBatch.update self b) as [self'|e] eqn:E; simpl in H;
      [|discriminate].
    destruct (recall_batch_update_same_keys _ _ _ E Hin) as [Hk Hs].
    rewrite (IH _ _ H); auto. rewrite Hk, Hs. exact Hin.
Qed.

(** X8: the map a [RecallAtBatch] metric holds lists the requested cutoffs
    in strictly ascending order, each once, whatever the order and the
    repetitions of the [sizes] it was built with, and successful updates
    never change this list of keys. *)
Theorem recall_batch_keys_ascending (sizes : list Z) (batches : list Output)
  (s : RecallAtBatch.t) :
  recall_batch_updates (RecallAtBatch.init sizes) batches = Ok s ->
  StronglySorted Z.lt (map fst (RecallAtBatch._recall_at s))
  /\ forall k, In k (map fst (RecallAtBatch._recall_at s)) <-> In k sizes.
Proof.
  intros H.
  assert (forall k,
            In k (map fst (RecallAtBatch._recall_at
                             (RecallAtBatch.init sizes)))
            <-> In k sizes) as Hkeys.
  { intros k. rewrite <- has_key_In. unfold has_key. simpl.
    rewrite (dict_get_fold_set (fun _ : Z => @None float)). simpl.
    split.
    - intros [v Hv].
      destruct (existsb (Z.eqb k) (sorted sizes)) eqn:E; [|discriminate].
      apply existsb_exists in E. destruct E as (x & Hx & Hk).
      apply Z.eqb_eq in Hk. subst x.
      now apply (Permutation_in _ (sorted_perm sizes)).
    - intros Hin. exists None. rewrite existsb_eqb_In; auto.
      now apply (Permutation_in _ (Permutation_sym (sorted_perm sizes))). }
  rewrite (recall_batch_updates_same_keys _ _ _ H).
  - split; [|exact Hkeys]. simpl.
    apply reset_keys_ascending; [apply sorted_sorted|constructor|constructor].
  - intros k Hk. apply Hkeys. simpl in Hk.
    now apply (Permutation_in _ (sorted_perm sizes)).
Qed.

Lemma recall_batch_keys_ascending_witness :
  StronglySorted Z.lt (map fst [(1, Some (Fin (1 # 4))); (2, Some (Fin 1))])
  /\ forall k,
       In k (map fst [(1, Some (Fin (1 # 4))); (2, Some (Fin 1))])
       <-> In k [2; 1; 2].
Proof.
  apply (recall_batch_keys_ascending [2; 1; 2] [batch1; batch3]
           (RecallAtBatch.mk [1; 2; 2]
              [(1, Some (Fin (1 # 4))); (2, Some (Fin 1))])).
  reflexivity.
Defined.

(** ** What attach adds *)

Lemma count_handler_other (engine : Engine) (self other : nat)
  (m m' : method) (e e' : Events) (args : list String.string) :
  other <> self ->
  count_handler (add_event_handler engine e' (self, m') args) (other, m) e
  = count_handler engine (other, m) e.
Proof.
  intros Hne. rewrite count_handler_add.
  unfold registered, handler_eqb. simpl.
  assert ((self =? other)%nat = false) as ->
    by (apply Nat.eqb_neq; congruence).
  simpl. rewrite andb_false_r. lia.
Qed.

(** X9: [attach] only appends to the engine's handler table.  The handlers
    already registered stay, in order, in front; what is added belongs to the
    attached metric; the last registration is the publish callback carrying
    [name], it comes after an update callback of the metric, and the
    registrations of every other metric object are counted as before. *)
Theorem attach_appends (self : nat) (engine : Engine) (name : String.string) :
  exists added,
    _event_handlers (BatchMetric.attach self engine name) =
      _event_handlers engine ++ added
        ++ [mkReg ITERATION_COMPLETED (self, completed) [name]]
    /\ Forall (fun r => fst (reg_handler r) = self) added
    /\ has_event_handler (mkEngine (_event_handlers engine ++ added))
         (self, started) ITERATION_STARTED = true
    /\ has_event_handler (mkEngine (_event_handlers engine ++ added))
         (self, iteration_completed) ITERATION_COMPLETED = true
    /\ forall other m e,
         other <> self ->
         count_handler (BatchMetric.attach self engine name) (other, m) e
         = count_handler engine (other, m) e.
Proof.
  unfold BatchMetric.attach.
  destruct (has_event_handler engine (self, started) ITERATION_STARTED)
    eqn:E1.
  - destruct (has_event_handler engine (self, iteration_completed)
                ITERATION_COMPLETED) eqn:E2.
    + exists []. simpl. rewrite app_nil_r. destruct engine as [hs].
      repeat split; auto.
      intros other m e Hne. now apply count_handler_other.
    + exists [mkReg ITERATION_COMPLETED (self, iteration_completed) []].
      simpl. rewrite <- app_assoc. repeat split; auto.
      * apply (has_event_handler_mono engine _ _ _ _ [] E1).
      * apply (has_event_handler_add engine).
      * intros other m e Hne. now rewrite !count_handler_other.
  - destruct (has_event_handler
                (add_event_handler engine ITERATION_STARTED (self, started)
                   [])
                (self, iteration_completed) ITERATION_COMPLETED) eqn:E2.
    + exists [mkReg ITERATION_STARTED (self, started) []].
      simpl. rewrite <- app_assoc. repeat split; auto.
      * apply (has_event_handler_add engine).
      * intros other m e Hne. now rewrite !count_handler_other.
    + exists [mkReg ITERATION_STARTED (self, started) [];
              mkReg ITERATION_COMPLETED (self, iteration_completed) []].
      simpl. rewrite <- !app_assoc. simpl. repeat split; auto.
      * pose proof (has_event_handler_mono
                      (add_event_handler engine ITERATION_STARTED
                         (self, started) [])
                      (self, started) (self, iteration_completed)
                      ITERATION_STARTED ITERATION_COMPLETED []
                      (has_event_handler_add engine _ _ _)) as H.
        unfold add_event_handler in H. simpl in H.
        now rewrite <- app_assoc in H.
      * pose proof (has_event_handler_add
                      (add_event_handler engine ITERATION_STARTED
                         (self, started) [])
                      (self, iteration_completed) ITERATION_COMPLETED [])
          as H.
        unfold add_event_handler in H. simpl in H.
        now rewrite <- app_assoc in H.
      * intros other m e Hne. now rewrite !count_handler_other.
Qed.

(** ** Publishing the Recall@k values *)

Example metric_key_ex :
  metric_key "recall"%string 10 = "recall_10"%string
  /\ metric_key "r"%string (-3) = "r_-3"%string
  /\ metric_key String.EmptyString 0 = "_0"%string.
Proof. repeat split. Qed.

Lemma py_str_inj (k1 k2 : Z) : py_str k1 = py_str k2 -> k1 = k2.
Proof.
  unfold py_str. intros H.
  assert (Some (Z.to_int k1) = Some (Z.to_int k2)) as E.
  { rewrite <- !DecimalString.NilEmpty.isi. now rewrite H. }
  injection E as E.
  rewrite <- (DecimalZ.of_to k1), <- (DecimalZ.of_to k2). now rewrite E.
Qed.

Lemma append_inj (a x y : String.string) :
  String.append a x = String.append a y -> x = y.
Proof.
  induction a as [|c a IH]; simpl; auto.
  intros H. injection H as H. auto.
Qed.

Lemma metric_key_inj (name : String.string) (k1 k2 : Z) :
  metric_key name k1 = metric_key name k2 -> k1 = k2.
Proof.
  unfold metric_key. intros H.
  apply append_inj in H. simpl in H. injection H as H.
  now apply py_str_inj.
Qed.

Lemma metrics_get_set (key key' : String.string) (v : option float)
  (m : Metrics) :
  metrics_get key (metrics_set key' v m) =
  if String.eqb key key' then Some v else metrics_get key m.
Proof.
  induction m as [|[k0 v0] m IH]; simpl.
  - reflexivity.
  - destruct (String.eqb key' k0) eqn:E0; simpl.
    + apply String.eqb_eq in E0. subst k0.
      destruct (String.eqb key key'); reflexivity.
    + destruct (String.eqb key k0) eqn:E1.
      * apply String.eqb_eq in E1. subst k0.
        rewrite String.eqb_sym in E0. now rewrite E0.
      * exact IH.
Qed.

Lemma publish_get (name : String.string) (result : dict (option float)) :
  NoDup (map fst result) ->
  forall (metrics : Metrics) (k : Z),
    metrics_get (metric_key name k) (publish_items name result metrics) =
    match dict_get k result with
    | Some v => Some v
    | None => metrics_get (metric_key name k) metrics
    end.
Proof.
  unfold publish_items.
  induction result as [|[k0 v0] result IH]; intros Hnd metrics k; simpl;
    auto.
  inversion Hnd as [|? ? Hnin Hnd']; subst.
  rewrite (IH Hnd'). rewrite metrics_get_set.
  destruct (k =? k0) eqn:E.
  - apply Z.eqb_eq in E. subst k0.
    now rewrite dict_get_absent, String.eqb_refl.
  - destruct (String.eqb (metric_key name k) (metric_key name k0)) eqn:Es;
      auto.
    apply String.eqb_eq, metric_key_inj in Es.
    apply Z.eqb_neq in E. contradiction.
Qed.

Lemma publish_other (name key : String.string)
  (result : dict (option float)) :
  (forall k, In k (map fst result) -> key <> metric_key name k) ->
  forall metrics : Metrics,
    metrics_get key (publish_items name result metrics)
    = metrics_get key metrics.
Proof.
  unfold publish_items.
  induction result as [|[k0 v0] result IH]; intros H metrics; simpl; auto.
  rewrite IH by (intros; apply H; simpl; auto).
  rewrite metrics_get_set.
  destruct (String.eqb key (metric_key name k0)) eqn:E; auto.
  apply String.eqb_eq in E. exfalso. apply (H k0); simpl; auto.
Qed.

Lemma ascending_nodup (l : list Z) : StronglySorted Z.lt l -> NoDup l.
Proof.
  induction 1 as [|x l Hs IH Hx]; constructor; auto.
  intros Hin. rewrite Forall_forall in Hx. specialize (Hx x Hin). lia.
Qed.

Lemma init_keys (sizes : list Z) :
  StronglySorted Z.lt
    (map fst (RecallAtBatch._recall_at (RecallAtBatch.init sizes)))
  /\ forall k,
       In k (RecallAtBatch._sorted_sizes (RecallAtBatch.init sizes)) ->
       In k (map fst (RecallAtBatch._recall_at (RecallAtBatch.init sizes))).
Proof.
  split.
  - simpl. apply reset_keys_ascending;
      [apply sorted_sorted|constructor|constructor].
  - intros k Hk. apply has_key_In. exists None. simpl in *.
    rewrite (dict_get_fold_set (fun _ : Z => @None float)).
    now rewrite existsb_eqb_In.
Qed.

(** X10: publishing a [RecallAtBatch] metric.  For a metric built with
    [sizes] and updated successfully any number of times,
    [completed(engine, name)] raises nothing and afterwards the result store
    holds, under the key '{name}_{k}' of every requested cutoff k, the
    metric's value for k (distinct cutoffs never share a key), while every
    key that is not of this form for a requested cutoff keeps its entry. *)
Theorem recall_batch_completed_publishes (sizes : list Z)
  (batches : list Output) (s : RecallAtBatch.t)
  (metrics : Metrics) (name : String.string) :
  recall_batch_updates (RecallAtBatch.init sizes) batches = Ok s ->
  exists metrics',
    RecallAtBatch_completed s metrics name = Ok metrics'
    /\ (forall k, In k sizes ->
          exists v, dict_get k (RecallAtBatch._recall_at s) = Some v
                    /\ metrics_get (metric_key name k) metrics' = Some v)
    /\ (forall key,
          (forall k, In k sizes -> key <> metric_key name k) ->
          metrics_get key metrics' = metrics_get key metrics).
Proof.
  intros H. destruct (init_keys sizes) as [Hasc Hin].
  pose proof (recall_batch_updates_same_keys _ _ _ H Hin) as Hkeys.
  assert (forall k, In k sizes <->
                    In k (map fst (RecallAtBatch._recall_at s))) as Hiff.
  { intros k. rewrite Hkeys, <- has_key_In. unfold has_key. simpl.
    rewrite (dict_get_fold_set (fun _ : Z => @None float)). simpl.
    split.
    - intros Hk. exists None. rewrite existsb_eqb_In; auto.
      now apply (Permutation_in _ (Permutation_sym (sorted_perm sizes))).
    - intros [v Hv].
      destruct (existsb (Z.eqb k) (sorted sizes)) eqn:E; [|discriminate].
      apply existsb_exists in E. destruct E as (x & Hx & Hk).
      apply Z.eqb_eq in Hk. subst x.
      now apply (Permutation_in _ (sorted_perm sizes)). }
  eexists. split; [reflexivity|]. split.
  - intros k Hk. apply Hiff, has_key_In in Hk. destruct Hk as [v Hv].
    exists v. split; auto.
    rewrite publish_get by (rewrite Hkeys; now apply ascending_nodup).
    now rewrite Hv.
  - intros key Hkey. apply publish_other.
    intros k Hk. apply Hkey. now apply Hiff.
Qed.

Lemma recall_batch_completed_publishes_witness :
  exists metrics',
    RecallAtBatch_completed
      (RecallAtBatch.mk [1; 2] [(1, Some (Fin (1 # 4))); (2, Some (Fin 1))])
      [("loss"%string, Some (Fin 3))] "recall"%string = Ok metrics'
    /\ (forall k, In k [2; 1] ->
          exists v,
            dict_get k [(1, Some (Fin (1 # 4))); (2, Some (Fin 1))] = Some v
            /\ metrics_get (metric_key "recall"%string k) metrics' = Some v)
    /\ (forall key,
          (forall k, In k [2; 1] -> key <> metric_key "recall"%string k) ->
          metrics_get key metrics'
          = metrics_get key [("loss"%string, Some (Fin 3))]).
Proof.
  apply (recall_batch_completed_publishes [2; 1] [batch1; batch3]).
  reflexivity.
Defined.

(** X11: publishing a [RecallAtEpoch] metric.  If [completed(engine, name)]
    returns, [compute()] returned a map, the result store then holds each
    value of that map under the key '{name}_{k}' of its cutoff k, and every
    key that is not of this form for a requested cutoff keeps its entry; if
    [compute()] raises, so does [completed] and nothing is stored. *)
Theorem recall_epoch_completed_publishes (self : RecallAtEpoch.t)
  (metrics : Metrics) (name : String.string) :
  (forall metrics',
     RecallAtEpoch_completed self metrics name = Ok metrics' ->
     exists r,
       RecallAtEpoch.compute self = Ok r
       /\ (forall k v, dict_get k r = Some v ->
             metrics_get (metric_key name k) metrics' = Some (Some v))
       /\ (forall key,
             (forall k, In k (RecallAtEpoch._sorted_sizes self) ->
                        key <> metric_key name k) ->
             metrics_get key metrics' = metrics_get key metrics))
  /\ (raises (RecallAtEpoch.compute self) ->
      raises (RecallAtEpoch_completed self metrics name)).
Proof.
  unfold RecallAtEpoch_completed. split.
  - intros metrics' H.
    destruct (RecallAtEpoch.compute self) as [r|e] eqn:E; simpl in H;
      [|discriminate].
    injection H as <-. exists r. split; auto.
    assert (recall_at_of : exists a sc,
              recall_at a sc (RecallAtEpoch._sorted_sizes self) = Ok r).
    { unfold RecallAtEpoch.compute in E.
      destruct (cat (RecallAtEpoch._y_true self)) as [a|]; simpl in E;
        [|discriminate].
      destruct (cat (RecallAtEpoch._y_score self)) as [sc|]; simpl in E;
        [|discriminate].
      eauto. }
    destruct recall_at_of as (a & sc & Hr). split.
    + intros k v Hv.
      rewrite publish_get
        by (rewrite published_keys; eapply recall_at_nodup; eauto).
      now rewrite dict_get_published, Hv.
    + intros key Hkey. apply publish_other. intros k Hk.
      apply Hkey. rewrite published_keys in Hk.
      apply (recall_at_keys _ _ _ r Hr). now apply has_key_In.
  - intros [e H]. rewrite H. now exists e.
Qed.

Lemma recall_epoch_completed_publishes_witness :
  exists r,
    RecallAtEpoch.compute epoch_two_batches = Ok r
    /\ (forall k v, dict_get k r = Some v ->
          metrics_get (metric_key "recall"%string k)
            [("recall_1"%string, Some (Fin (1 # 2)));
             ("recall_2"%string, Some (Fin 1))]
          = Some (Some v))
    /\ (forall key,
          (forall k, In k (RecallAtEpoch._sorted_sizes epoch_two_batches) ->
                     key <> metric_key "recall"%string k) ->
          metrics_get key
            [("recall_1"%string, Some (Fin (1 # 2)));
             ("recall_2"%string, Some (Fin 1))]
          = metrics_get key []).
Proof.
  destruct (recall_epoch_completed_publishes epoch_two_batches []
              "recall"%string) as [H _].
  apply H. reflexivity.
Defined.

(** ** The range of mean_average_precision *)

Lemma precision_sum_bounds (ranked : list Z) :
  forall (rank h : Z) (a : Q),
    0 <= h < rank -> (0 <= a)%Q ->
    exists b,
      precision_sum ranked rank h (Fin a) = Fin b
      /\ (a <= b
          <= a + inject_Z
                   (Z.of_nat
                      (length (filter (fun y => negb (y =? 0)) ranked))))%Q.
Proof.
  induction ranked as [|y ranked IH]; intros rank h a Hh Ha.
  - exists a. simpl. split; auto. unfold inject_Z. lra.
  - cbn [precision_sum filter]. destruct (y =? 0) eqn:E; cbn [negb].
    + apply IH; auto. lia.
    + assert (in_unit (fdiv (of_Z (h + 1)) (of_Z rank))) as Hu.
      { unfold of_Z at 1. apply quotient_in_unit; [lia|].
        change 0%Q with (inject_Z 0). rewrite <- !Zle_Qle. lia. }
      destruct (fdiv (of_Z (h + 1)) (of_Z rank)) as [| | |t];
        cbn [in_unit] in Hu; try contradiction.
      change (fadd (Fin a) (Fin t)) with (Fin (Qred (a + t))).
      destruct (IH (rank + 1) (h + 1) (Qred (a + t))) as (b & Hb & Hle & Hge).
      * lia.
      * rewrite Qred_correct. lra.
      * exists b. split; auto. rewrite Qred_correct in Hle, Hge.
        cbn [length].
        rewrite Nat2Z.inj_succ, <- Z.add_1_r, inject_Z_plus.
        change (inject_Z 1) with 1%Q. lra.
Qed.

Lemma filter_length_perm {A : Type} (f : A -> bool) (l l' : list A) :
  Permutation l l' -> length (filter f l) = length (filter f l').
Proof.
  induction 1 as [|x l l' Hp IH|x y l|l l' l'' H1 IH1 H2 IH2]; simpl; auto.
  - destruct (f x); simpl; auto.
  - destruct (f x), (f y); simpl; auto.
  - congruence.
Qed.

Lemma positives_ranked (y_true : list Z) (y_score : list float) :
  length y_true = length y_score ->
  length (filter (fun y => negb (y =? 0))
            (map (fun i => nth i y_true 0) (argsort_row y_score)))
  = length (filter (fun y => negb (y =? 0)) y_true).
Proof.
  intros Hlen.
  transitivity
    (length (filter (fun y => negb (y =? 0))
               (gather_row y_true (seq 0 (length y_true)))));
    [|now rewrite gather_row_seq].
  unfold gather_row. apply filter_length_perm, Permutation_map.
  rewrite Hlen. apply argsort_row_perm.
Qed.

Lemma average_precision_in_unit (y_true : list Z) (y_score : list float) :
  length y_true = length y_score ->
  (exists a, In a y_true /\ a <> 0) ->
  in_unit (average_precision y_true y_score).
Proof.
  intros Hlen (a & Hin & Hne). unfold average_precision.
  destruct (precision_sum_bounds
              (map (fun i => nth i y_true 0) (argsort_row y_score))
              1 0 0) as (b & -> & Hb0 & Hb1); [lia|lra|].
  rewrite positives_ranked in Hb1 by auto.
  apply quotient_in_unit.
  - assert (In a (filter (fun y => negb (y =? 0)) y_true)) as Hf.
    { apply filter_In. split; auto. apply negb_true_iff.
      now apply Z.eqb_neq. }
    destruct (filter (fun y => negb (y =? 0)) y_true); [contradiction|].
    simpl length. lia.
  - lra.
Qed.

Lemma column_length {A : Type} (d : A) (c : nat) (t : Tensor A) :
  length (column d c t) = nrows t.
Proof. unfold column, nrows. apply length_map. Qed.

Lemma no_positive_dec (annotations : Tensor Z) (c : nat) :
  no_positive annotations c \/ has_positive annotations c.
Proof.
  unfold no_positive, has_positive.
  induction (column 0 c annotations) as [|a l IH].
  - left. constructor.
  - destruct (Z.eq_dec a 0) as [->|Hne].
    + destruct IH as [IH|(x & Hx & Hne)].
      * left. now constructor.
      * right. exists x. simpl. auto.
    + right. exists a. simpl. auto.
Qed.

(** X12: for matrices of equal shape in which at least one class column has
    a positive sample, [mean_average_precision] returns a number between 0
    and 1, not NaN.  (The per-class Average Precision is the function
    modelled for [sklearn.metrics.average_precision_score].) *)
Theorem mean_average_precision_in_unit (annotations : Tensor Z)
  (scores : Tensor float) (c : nat) :
  shape annotations = shape scores ->
  (c < ncols annotations)%nat -> has_positive annotations c ->
  exists v, mean_average_precision annotations scores = Ok v /\ in_unit v.
Proof.
  intros Hshape Hc Hpos. pose proof Hshape as Hshape'.
  injection Hshape' as Hn Hcols.
  set (f := fun c => average_precision (column 0 c annotations)
                       (column NaN c scores)).
  assert (mean_average_precision annotations scores =
          Ok (fmean (filter not_nan (map f (seq 0 (ncols scores)))))) as Hm.
  { unfold mean_average_precision, average_precision_score.
    assert ((nrows annotations =? 0)%nat = false) as ->.
    { apply Nat.eqb_neq. destruct Hpos as (a & Ha & _).
      unfold column in Ha. unfold nrows.
      destruct (rows annotations); [contradiction|discriminate]. }
    rewrite Hn, Nat.eqb_refl.
    rewrite average_precision_classes_ok.
    - simpl. now rewrite nanmean_skips.
    - apply Forall_forall. intros x Hx. apply in_seq in Hx. lia. }
  assert (forall x, has_positive annotations x -> in_unit (f x)) as Hunit.
  { intros x Hx. apply average_precision_in_unit; auto.
    now rewrite !column_length. }
  eexists. split; [exact Hm|]. apply fmean_in_unit.
  - assert (In (f c) (filter not_nan (map f (seq 0 (ncols scores))))) as Hin.
    { apply filter_In. split.
      - apply in_map, in_seq. lia.
      - specialize (Hunit c Hpos). now destruct (f c). }
    intros E. now rewrite E in Hin.
  - apply Forall_forall. intros x Hx. apply filter_In in Hx.
    destruct Hx as [Hx Hnn]. apply in_map_iff in Hx.
    destruct Hx as (k & <- & Hk).
    destruct (no_positive_dec annotations k) as [Hz|Hp]; auto.
    unfold f in Hnn.
    rewrite (average_precision_no_positive _ _ Hz) in Hnn. discriminate.
Qed.

Lemma mean_average_precision_in_unit_witness :
  exists v,
    mean_average_precision A_second_class_empty S_two_rows = Ok v
    /\ in_unit v.
Proof.
  apply (mean_average_precision_in_unit A_second_class_empty S_two_rows 0).
  - reflexivity.
  - unfold A_second_class_empty. simpl. lia.
  - exists 1. split; [simpl; auto|lia].
Defined.

(** ** Relevance rows beyond the score rows *)

Lemma gather_rows_firstn (index : list (list nat)) :
  forall input : list (list Z),
    gather_rows (firstn (length index) input) index
    = gather_rows input index.
Proof.
  induction index as [|ix index IH]; intros input; simpl.
  - now destruct input.
  - destruct input as [|r input]; simpl; auto. now rewrite IH.
Qed.

(** X14: [precision_at] never reads the relevance rows beyond the number of
    score rows: cutting the relevance matrix down to its first
    [nrows scores] rows changes nothing to the result, be it a map or an
    exception. *)
Theorem precision_at_ignores_extra_rows (annotations : Tensor Z)
  (scores : Tensor float) (sizes : list Z) :
  precision_at (first_rows (nrows scores) annotations) scores sizes
  = precision_at annotations scores sizes.
Proof.
  unfold precision_at. f_equal.
  unfold annotations_of_top_max_s.
  destruct (py_max sizes) as [m|e]; simpl; auto.
  unfold gather, first_rows, nrows. simpl.
  rewrite !length_map, length_firstn.
  assert ((Nat.min (length (rows scores)) (length (rows annotations))
           <? length (rows scores))%nat
          = (length (rows annotations) <? length (rows scores))%nat) as ->.
  { destruct (length (rows annotations) <? length (rows scores))%nat eqn:E.
    - apply Nat.ltb_lt in E. apply Nat.ltb_lt. lia.
    - apply Nat.ltb_ge in E. apply Nat.ltb_ge. lia. }
  destruct (length (rows annotations) <? length (rows scores))%nat; auto.
  destruct (forallb _ _); auto.
  do 2 f_equal.
  rewrite <- (gather_rows_firstn _ (rows annotations)).
  now rewrite !length_map.
Qed.

(** ** Batches that disagree on the number of classes *)

Lemma cat_ragged_raises {A : Type} (ts : list (Tensor A))
  (t1 t2 : Tensor A) :
  In t1 ts -> In t2 ts -> ncols t1 <> ncols t2 -> raises (cat ts).
Proof.
  intros H1 H2 Hne. exists RuntimeError. unfold cat.
  destruct ts as [|t ts]; [contradiction|].
  destruct (forallb (fun u => (ncols u =? ncols t)%nat) (t :: ts)) eqn:E;
    auto.
  rewrite forallb_forall in E.
  pose proof (E t1 H1) as E1. pose proof (E t2 H2) as E2.
  apply Nat.eqb_eq in E1, E2. congruence.
Qed.

(** X15: an Epoch-Scoped metric whose buffered relevance matrices do not all
    have the same number of columns cannot compute: [compute()] raises, for
    both the mAP and the Recall@k metric. *)
Theorem epoch_compute_ragged_raises (batches : list Output) (b1 b2 : Output)
  (m0 : MeanAveragePrecisionEpoch.t) (r0 : RecallAtEpoch.t) :
  In b1 batches -> In b2 batches -> ncols (fst b1) <> ncols (fst b2) ->
  raises (MeanAveragePrecisionEpoch.compute
            (fold_left MeanAveragePrecisionEpoch.update batches
               (MeanAveragePrecisionEpoch.reset m0)))
  /\ raises (RecallAtEpoch.compute
               (fold_left RecallAtEpoch.update batches
                  (RecallAtEpoch.reset r0))).
Proof.
  intros H1 H2 Hne.
  destruct (cat_ragged_raises (map fst batches) (fst b1) (fst b2))
    as [e He]; auto using in_map.
  split.
  - rewrite map_epoch_updates.
    unfold MeanAveragePrecisionEpoch.compute. simpl. rewrite He.
    now exists e.
  - rewrite recall_epoch_updates.
    unfold RecallAtEpoch.compute. simpl. rewrite He. now exists e.
Qed.

Lemma epoch_compute_ragged_raises_witness :
  raises (MeanAveragePrecisionEpoch.compute
            (fold_left MeanAveragePrecisionEpoch.update
               [batch1; (A_ex, S_ex)]
               (MeanAveragePrecisionEpoch.reset
                  MeanAveragePrecisionEpoch.init)))
  /\ raises (RecallAtEpoch.compute
               (fold_left RecallAtEpoch.update [batch1; (A_ex, S_ex)]
                  (RecallAtEpoch.reset (RecallAtEpoch.init [1])))).
Proof.
  apply (epoch_compute_ragged_raises [batch1; (A_ex, S_ex)]
           batch1 (A_ex, S_ex)).
  - simpl. auto.
  - simpl. auto.
  - simpl. lia.
Defined.

(** ** Which cutoffs are accepted *)

Lemma norm_index_cases (n : nat) (k : Z) :
  (1 - Z.of_nat n <= k <= Z.of_nat n /\ exists i, norm_index n (k - 1) = Ok i)
  \/ (~ (1 - Z.of_nat n <= k <= Z.of_nat n)
      /\ norm_index n (k - 1) = Raise IndexError).
Proof.
  unfold norm_index.
  destruct ((0 <=? k - 1) && (k - 1 <? Z.of_nat n)) eqn:E1.
  - apply andb_true_iff in E1. destruct E1 as [Ha Hb].
    apply Z.leb_le in Ha. apply Z.ltb_lt in Hb. left. split; [lia|eauto].
  - destruct ((- Z.of_nat n <=? k - 1) && (k - 1 <? 0)) eqn:E2.
    + apply andb_true_iff in E2. destruct E2 as [Ha Hb].
      apply Z.leb_le in Ha. apply Z.ltb_lt in Hb. left. split; [lia|eauto].
    + right. split; auto. intros [Hlo Hhi].
      apply andb_false_iff in E1, E2.
      rewrite Z.leb_gt, Z.ltb_ge in E1. rewrite Z.leb_gt, Z.ltb_ge in E2.
      lia.
Qed.

Lemma select_col_cases (t : Tensor float) (k : Z) :
  (1 - Z.of_nat (ncols t) <= k <= Z.of_nat (ncols t)
   /\ exists col, select_col t (k - 1) = Ok col)
  \/ (~ (1 - Z.of_nat (ncols t) <= k <= Z.of_nat (ncols t))
      /\ select_col t (k - 1) = Raise IndexError).
Proof.
  unfold select_col.
  destruct (norm_index_cases (ncols t) k) as [[H [i Hi]]|[H Hi]];
    rewrite Hi; simpl; [left|right]; eauto.
Qed.

Lemma precision_loop_cases (cumsum : Tensor float) (sizes : list Z) :
  forall result,
    (addressable (ncols cumsum) sizes
     /\ exists d, precision_loop cumsum sizes result = Ok d)
    \/ (~ addressable (ncols cumsum) sizes
        /\ precision_loop cumsum sizes result = Raise IndexError).
Proof.
  unfold addressable.
  induction sizes as [|s sizes IH]; intros result; simpl.
  - left. split; [constructor|eauto].
  - destruct (select_col_cases cumsum s) as [[Hs [col Hc]]|[Hs Hc]];
      rewrite Hc; simpl.
    + destruct (IH (dict_set s
                      (fmean (map (fun x => fdiv x (of_Z s)) col)) result))
        as [[Hall Hd]|[Hall Hd]]; [left|right]; split; auto.
      intros H. inversion H. contradiction.
    + right. split; auto. intros H. inversion H. contradiction.
Qed.

Lemma recall_loop_cases (recall : Tensor float) (sizes : list Z) :
  forall result,
    (addressable (ncols recall) sizes
     /\ exists d, recall_loop recall sizes result = Ok d)
    \/ (~ addressable (ncols recall) sizes
        /\ recall_loop recall sizes result = Raise IndexError).
Proof.
  unfold addressable.
  induction sizes as [|s sizes IH]; intros result; simpl.
  - left. split; [constructor|eauto].
  - destruct (select_col_cases recall s) as [[Hs [col Hc]]|[Hs Hc]];
      rewrite Hc; simpl.
    + destruct (IH (dict_set s (fmean col) result))
        as [[Hall Hd]|[Hall Hd]]; [left|right]; split; auto.
      intros H. inversion H. contradiction.
    + right. split; auto. intros H. inversion H. contradiction.
Qed.

Lemma top_well_shaped (annotations : Tensor Z) (scores : Tensor float)
  (sizes : list Z) (m : Z) :
  wf scores -> shape annotations = shape scores ->
  py_max sizes = Ok m ->
  exists top,
    annotations_of_top_max_s annotations scores sizes = Ok top
    /\ ncols top = slice_stop (ncols scores) m
    /\ nrows top = nrows annotations.
Proof.
  intros Hwf Hshape Hmax. injection Hshape as Hn Hc.
  unfold annotations_of_top_max_s. rewrite Hmax. simpl.
  unfold gather, slice_cols, argsort, nrows in *. simpl.
  rewrite !length_map, Hn, Nat.ltb_irrefl.
  assert (forallb (forallb (fun j => (j <? ncols annotations)%nat))
            (map (firstn (slice_stop (ncols scores) m))
               (map argsort_row (rows scores)))
          = true) as ->.
  { apply forallb_forall. intros ix Hix.
    apply in_map_iff in Hix. destruct Hix as (p & <- & Hp).
    apply in_map_iff in Hp. destruct Hp as (s & <- & Hs).
    apply forallb_forall. intros j Hj. apply Nat.ltb_lt.
    apply In_firstn, argsort_row_lt in Hj.
    unfold wf in Hwf. rewrite Forall_forall in Hwf.
    rewrite (Hwf s Hs) in Hj. lia. }
  eexists. split; [reflexivity|]. simpl. split; auto.
  rewrite map_map, gather_rows_map by (now rewrite Hn).
  rewrite length_map, length_combine, Hn. lia.
Qed.

(** X16: the cutoffs that are accepted.  For a well-formed score matrix and
    a relevance matrix of the same shape, with [m] the largest requested
    cutoff and [w] the number of ranked columns kept ([slice_stop C m], that
    is min(C, m) for m >= 0), [precision_at] and [recall_at] return a map
    exactly when every cutoff k satisfies 1 - w <= k <= w, so that zero and
    negative cutoffs down to 1 - w are accepted; otherwise both raise
    IndexError. *)
Theorem cutoffs_accepted (annotations : Tensor Z) (scores : Tensor float)
  (sizes : list Z) (m : Z) :
  wf scores -> shape annotations = shape scores ->
  py_max sizes = Ok m ->
  let w := slice_stop (ncols scores) m in
  (addressable w sizes ->
   (exists d, precision_at annotations scores sizes = Ok d)
   /\ (exists d, recall_at annotations scores sizes = Ok d))
  /\ (~ addressable w sizes ->
      precision_at annotations scores sizes = Raise IndexError
      /\ recall_at annotations scores sizes = Raise IndexError).
Proof.
  intros Hwf Hshape Hmax w.
  destruct (top_well_shaped _ _ _ _ Hwf Hshape Hmax)
    as (top & Htop & Hcols & Hrows).
  assert (exists recall,
            recall_matrix annotations scores sizes = Ok recall
            /\ ncols recall = w) as (recall & Hrec & Hrc).
  { unfold recall_matrix. rewrite Htop. simpl. unfold div_rows.
    assert ((nrows (cumsum_float top) =? length (num_rel annotations))%nat
            = true) as ->.
    { apply Nat.eqb_eq. unfold cumsum_float, num_rel, nrows in *. simpl.
      now rewrite !length_map. }
    eexists. split; [reflexivity|]. simpl. exact Hcols. }
  unfold precision_at, recall_at. rewrite Htop, Hrec. simpl.
  destruct (precision_loop_cases (cumsum_float top) sizes [])
    as [[Hp Hpd]|[Hp Hpd]];
    destruct (recall_loop_cases recall sizes []) as [[Hr Hrd]|[Hr Hrd]];
    simpl in Hp; rewrite Hcols in Hp; rewrite Hrc in Hr; fold w in Hp;
    split; intros H; try contradiction; auto.
Qed.

Lemma cutoffs_accepted_witness :
  let w := slice_stop (ncols S_ex) 2 in
  (addressable w [0; -1; 2] ->
   (exists d, precision_at A_ex S_ex [0; -1; 2] = Ok d)
   /\ (exists d, recall_at A_ex S_ex [0; -1; 2] = Ok d))
  /\ (~ addressable w [0; -1; 2] ->
      precision_at A_ex S_ex [0; -1; 2] = Raise IndexError
      /\ recall_at A_ex S_ex [0; -1; 2] = Raise IndexError).
Proof.
  apply (cutoffs_accepted A_ex S_ex [0; -1; 2] 2).
  - repeat constructor.
  - reflexivity.
  - reflexivity.
Defined.

(** ** The returned Recall@k grows with k *)

Lemma fold_fadd_mono {X : Type} (f g : X -> float) (l : list X) :
  (forall x, In x l ->
     exists p q, f x = Fin p /\ g x = Fin q /\ (p <= q)%Q) ->
  forall a b, (a <= b)%Q ->
    exists a' b',
      fold_left fadd (map f l) (Fin a) = Fin a'
      /\ fold_left fadd (map g l) (Fin b) = Fin b'
      /\ (a' <= b')%Q.
Proof.
  induction l as [|x l IH]; intros H a b Hab.
  - exists a, b. simpl. auto.
  - destruct (H x (or_introl eq_refl)) as (p & q & Hf & Hg & Hpq).
    cbn [map fold_left]. rewrite Hf, Hg.
    change (fadd (Fin a) (Fin p)) with (Fin (Qred (a + p))).
    change (fadd (Fin b) (Fin q)) with (Fin (Qred (b + q))).
    apply IH.
    + intros y Hy. apply H. simpl. auto.
    + rewrite !Qred_correct. lra.
Qed.

Lemma fmean_mono {X : Type} (f g : X -> float) (l : list X) :
  l <> [] ->
  (forall x, In x l ->
     exists p q, f x = Fin p /\ g x = Fin q /\ (p <= q)%Q) ->
  fle (fmean (map f l)) (fmean (map g l)) = true.
Proof.
  intros Hne H. unfold fmean, fsum.
  destruct (fold_fadd_mono f g l H 0 0) as (a & b & -> & -> & Hab); [lra|].
  rewrite !length_map. unfold of_nat.
  assert (0 < Z.of_nat (length l)) as Hpos.
  { destruct l; [contradiction|]. simpl length. lia. }
  rewrite !fdiv_of_Z_pos by auto. unfold fle.
  apply Qle_bool_iff. rewrite !Qred_correct. unfold Qdiv.
  apply Qmult_le_compat_r; auto.
  apply Qinv_le_0_compat. change 0%Q with (inject_Z 0).
  rewrite <- Zle_Qle. lia.
Qed.

(** X17: the values [recall_at] returns are non-decreasing in the cutoff.
    For a binary relevance matrix and a score matrix of equal shape with at
    least one sample, valid cutoffs and at least one relevant class in every
    sample, the value returned under a requested cutoff k1 is at most the
    value returned under a requested cutoff k2 >= k1. *)
Theorem recall_at_monotone (annotations : Tensor Z) (scores : Tensor float)
  (sizes : list Z) (k1 k2 : Z) :
  wf scores -> shape annotations = shape scores -> binary annotations ->
  valid_cutoffs (ncols scores) sizes ->
  (1 <= nrows annotations)%nat -> all_relevant annotations ->
  In k1 sizes -> In k2 sizes -> k1 <= k2 ->
  exists d v1 v2,
    recall_at annotations scores sizes = Ok d
    /\ dict_get k1 d = Some v1 /\ dict_get k2 d = Some v2
    /\ fle v1 v2 = true.
Proof.
  intros Hwf Hshape Hbin Hvalid Hn1 Hrel Hk1 Hk2 Hle.
  destruct (recall_at_valid _ _ _ Hwf Hshape Hvalid)
    as (m & d & Hmax & Hm & Hall & Hd & Hget & _).
  exists d. do 2 eexists. split; [exact Hd|].
  split; [apply (Hget k1 Hk1)|]. split; [apply (Hget k2 Hk2)|].
  injection Hshape as Hn Hc.
  apply fmean_mono; [now apply samples_nonempty|].
  intros [r s] Hp. cbn [fst snd].
  unfold binary in Hbin. unfold all_relevant in Hrel.
  rewrite Forall_forall in Hbin, Hrel, Hall.
  pose proof (in_combine_l _ _ _ _ Hp) as Hr.
  pose proof (in_combine_r _ _ _ _ Hp) as Hs.
  unfold wf in Hwf. rewrite Forall_forall in Hwf.
  pose proof (Hall k1 Hk1). pose proof (Hall k2 Hk2).
  unfold sample_recall, of_Z at 1 3.
  rewrite !fdiv_of_Z_pos by (now apply Hrel).
  do 2 eexists. split; [reflexivity|]. split; [reflexivity|].
  rewrite !Qred_correct. unfold Qdiv.
  apply Qmult_le_compat_r.
  - rewrite <- Zle_Qle. apply hits_mono; auto; try lia.
    rewrite (Hwf s Hs). lia.
  - apply Qinv_le_0_compat. change 0%Q with (inject_Z 0).
    rewrite <- Zle_Qle. specialize (Hrel r Hr). lia.
Qed.

Lemma recall_at_monotone_witness :
  exists d v1 v2,
    recall_at A_two_rows S_two_rows [2; 1] = Ok d
    /\ dict_get 1 d = Some v1 /\ dict_get 2 d = Some v2
    /\ fle v1 v2 = true.
Proof.
  apply (recall_at_monotone A_two_rows S_two_rows [2; 1] 1 2).
  - repeat constructor.
  - reflexivity.
  - unfold binary, A_two_rows. simpl.
    repeat (apply Forall_cons || apply Forall_nil); auto.
  - split; [discriminate|].
    unfold S_two_rows. repeat constructor; simpl; lia.
  - unfold A_two_rows, nrows. simpl. lia.
  - unfold all_relevant, A_two_rows, total. simpl. repeat constructor.
  - simpl. auto.
  - simpl. auto.
  - lia.
Defined.

(** * The ranking, whatever the order among equal scores (C1) *)

Lemma precision_at_is_instance (annotations : Tensor Z)
  (scores : Tensor float) (sizes : list Z) :
  precision_at annotations scores sizes
  = precision_at_by argsort_row annotations scores sizes
  /\ recall_at annotations scores sizes
     = recall_at_by argsort_row annotations scores sizes.
Proof. split; reflexivity. Qed.

Lemma argsort_row_sorts_descending : sorts_descending argsort_row.
Proof.
  intros row. split; [apply argsort_row_perm|].
  pose proof (argsort_row_sorted row) as H.
  induction H as [|i l Hs IH Hi]; constructor; auto.
  eapply Forall_impl; [|exact Hi]. intros j [Hj _]. exact Hj.
Qed.

Lemma rank_lt (rank : list float -> list nat) (s : list float) (j : nat) :
  sorts_descending rank -> In j (rank s) -> (j < length s)%nat.
Proof.
  intros Hrank H. destruct (Hrank s) as [Hp _].
  apply (Permutation_in _ Hp) in H. apply in_seq in H. lia.
Qed.

Lemma rank_length (rank : list float -> list nat) (s : list float) :
  sorts_descending rank -> length (rank s) = length s.
Proof.
  intros Hrank. destruct (Hrank s) as [Hp _].
  rewrite (Permutation_length Hp). apply length_seq.
Qed.

Lemma top_valid_by (rank : list float -> list nat) (annotations : Tensor Z)
  (scores : Tensor float) (sizes : list Z) (m : Z) :
  sorts_descending rank ->
  wf scores -> shape annotations = shape scores ->
  py_max sizes = Ok m -> 0 <= m <= Z.of_nat (ncols scores) ->
  annotations_of_top_max_s_by rank annotations scores sizes =
  Ok (mkTensor (Z.to_nat m)
        (map (fun p => gather_row (fst p)
                         (firstn (Z.to_nat m) (rank (snd p))))
           (samples annotations scores))).
Proof.
  intros Hrank Hwf Hshape Hmax Hm. unfold shape in Hshape.
  injection Hshape as Hn Hc.
  unfold annotations_of_top_max_s_by. rewrite Hmax. simpl.
  unfold gather, slice_cols, argsort_by, nrows in *. simpl.
  rewrite !length_map, Hn, Nat.ltb_irrefl.
  rewrite (slice_stop_in_range _ _ Hm).
  assert (forallb (forallb (fun j => (j <? ncols annotations)%nat))
            (map (firstn (Z.to_nat m)) (map rank (rows scores)))
          = true) as ->.
  { apply forallb_forall. intros ix Hix.
    apply in_map_iff in Hix. destruct Hix as (p & <- & Hp).
    apply in_map_iff in Hp. destruct Hp as (s & <- & Hs).
    apply forallb_forall. intros j Hj. apply Nat.ltb_lt.
    apply In_firstn, (rank_lt rank s j Hrank) in Hj.
    unfold wf in Hwf. rewrite Forall_forall in Hwf.
    rewrite (Hwf s Hs) in Hj. lia. }
  f_equal. f_equal. rewrite map_map.
  now rewrite gather_rows_map by (now rewrite Hn).
Qed.

Lemma top_cell (rank : list float -> list nat) (r : list Z)
  (s : list float) (m k : Z) :
  sorts_descending rank ->
  1 <= k <= m -> m <= Z.of_nat (length s) ->
  nth (Z.to_nat (k - 1))
    (map of_Z (cumsum_row (gather_row r (firstn (Z.to_nat m) (rank s)))))
    NaN
  = of_Z (top_k_relevant rank r s k).
Proof.
  intros Hrank Hk Hm.
  assert (length (gather_row r (firstn (Z.to_nat m) (rank s)))
          = Z.to_nat m) as Hlen.
  { unfold gather_row.
    rewrite length_map, length_firstn, (rank_length rank s Hrank). lia. }
  rewrite nth_map_of_Z
    by (unfold cumsum_row; rewrite cumsum_from_length, Hlen; lia).
  f_equal. unfold cumsum_row. rewrite cumsum_from_nth by (rewrite Hlen; lia).
  unfold top_k_relevant, total, gather_row.
  rewrite <- firstn_map, firstn_firstn. do 2 f_equal. lia.
Qed.

Lemma precision_at_valid_by (rank : list float -> list nat)
  (annotations : Tensor Z) (scores : Tensor float) (sizes : list Z) :
  sorts_descending rank ->
  wf scores -> shape annotations = shape scores ->
  valid_cutoffs (ncols scores) sizes ->
  exists d,
    precision_at_by rank annotations scores sizes = Ok d
    /\ forall k, In k sizes ->
         dict_get k d = Some (precision_value rank annotations scores k).
Proof.
  intros Hrank Hwf Hshape Hvalid.
  destruct (valid_cutoffs_max _ _ Hvalid) as (m & Hmax & Hm & Hall).
  eexists. unfold precision_at_by.
  rewrite (top_valid_by rank annotations scores sizes m) by (auto; lia).
  simpl. rewrite precision_loop_ok.
  2:{ simpl. eapply Forall_impl; [|exact Hall]. simpl. intros; lia. }
  split; [reflexivity|]. intros k Hk.
  rewrite (dict_get_fold_set
             (fun s => fmean (map (fun x => fdiv x (of_Z s))
                                (column_at _ s)))).
  rewrite (existsb_eqb_In k sizes Hk). f_equal.
  unfold precision_value. f_equal.
  unfold column_at, cumsum_float. simpl. rewrite !map_map.
  apply map_ext_in. intros [r s] Hp. cbn [fst snd].
  rewrite (top_cell rank r s m k Hrank); auto.
  - rewrite Forall_forall in Hall. now apply Hall.
  - unfold wf in Hwf. rewrite Forall_forall in Hwf.
    rewrite (Hwf s) by (eapply in_combine_r; eauto). lia.
Qed.

Lemma recall_at_valid_by (rank : list float -> list nat)
  (annotations : Tensor Z) (scores : Tensor float) (sizes : list Z) :
  sorts_descending rank ->
  wf scores -> shape annotations = shape scores ->
  valid_cutoffs (ncols scores) sizes ->
  exists d,
    recall_at_by rank annotations scores sizes = Ok d
    /\ forall k, In k sizes ->
         dict_get k d = Some (recall_value rank annotations scores k).
Proof.
  intros Hrank Hwf Hshape Hvalid.
  destruct (valid_cutoffs_max _ _ Hvalid) as (m & Hmax & Hm & Hall).
  pose proof Hshape as Hshape'. injection Hshape' as Hn Hc.
  unfold nrows in Hn.
  assert (recall_matrix_by rank annotations scores sizes =
          Ok (mkTensor (Z.to_nat m)
                (map (fun p =>
                        map (fun x => fdiv x (of_Z (total (fst p))))
                          (map of_Z
                             (cumsum_row
                                (gather_row (fst p)
                                   (firstn (Z.to_nat m) (rank (snd p)))))))
                   (samples annotations scores)))) as Hrec.
  { unfold recall_matrix_by.
    rewrite (top_valid_by rank annotations scores sizes m) by (auto; lia).
    simpl. unfold div_rows, cumsum_float, num_rel, nrows, samples. simpl.
    rewrite !length_map, length_combine, <- Hn, Nat.min_id, Nat.eqb_refl.
    f_equal. f_equal. rewrite map_map.
    rewrite (combine_map_samples
               (fun p => map of_Z
                           (cumsum_row
                              (gather_row (fst p)
                                 (firstn (Z.to_nat m) (rank (snd p))))))
               (fun r => fold_left Z.add r 0)) by exact Hn.
    rewrite map_map. reflexivity. }
  eexists. unfold recall_at_by. rewrite Hrec. simpl.
  rewrite recall_loop_ok.
  2:{ simpl. eapply Forall_impl; [|exact Hall]. simpl. intros; lia. }
  split; [reflexivity|]. intros k Hk.
  rewrite (dict_get_fold_set (fun s => fmean (column_at _ s))).
  rewrite (existsb_eqb_In k sizes Hk). f_equal.
  unfold recall_value. f_equal.
  unfold column_at. cbn [rows]. rewrite !map_map.
  apply map_ext_in. intros [r s] Hp. cbn [fst snd].
  change NaN with ((fun x => fdiv x (of_Z (total r))) NaN) at 1.
  rewrite map_nth. rewrite (top_cell rank r s m k Hrank); [reflexivity| |].
  - rewrite Forall_forall in Hall. now apply Hall.
  - unfold wf in Hwf. rewrite Forall_forall in Hwf.
    rewrite (Hwf s) by (eapply in_combine_r; eauto). lia.
Qed.

Lemma total_app (l1 l2 : list Z) : total (l1 ++ l2) = total l1 + total l2.
Proof.
  unfold total. rewrite fold_left_app.
  now rewrite (fold_add_acc l2 (fold_left Z.add l1 0)).
Qed.

Lemma top_k_relevant_bounds (rank : list float -> list nat) (r : list Z)
  (s : list float) (k : Z) :
  sorts_descending rank ->
  Forall (fun a => a = 0 \/ a = 1) r -> length r = length s ->
  0 <= k <= Z.of_nat (length s) ->
  Z.max 0 (k - (Z.of_nat (length s) - total r))
  <= top_k_relevant rank r s k <= Z.min (total r) k.
Proof.
  intros Hrank Hb Hlen Hk. unfold top_k_relevant.
  set (G := gather_row r (rank s)).
  assert (Forall (fun a => 0 <= a <= 1) G) as HG
    by (apply gather_row_binary, Hb).
  assert (length G = length s) as HlenG.
  { unfold G, gather_row. now rewrite length_map, rank_length. }
  assert (total G = total r) as Htot.
  { unfold G, total. rewrite <- (gather_row_seq r) at 2. unfold gather_row.
    apply fold_add_perm, Permutation_map.
    rewrite Hlen. apply (Hrank s). }
  pose proof (total_app (firstn (Z.to_nat k) G) (skipn (Z.to_nat k) G))
    as Hsplit.
  rewrite firstn_skipn, Htot in Hsplit.
  pose proof (fold_add_bounds _ (Forall_firstn _ (Z.to_nat k) G HG) 0)
    as Hfirst.
  fold (total (firstn (Z.to_nat k) G)) in Hfirst.
  rewrite length_firstn, HlenG in Hfirst.
  assert (Forall (fun a => 0 <= a <= 1) (skipn (Z.to_nat k) G)) as Hskip.
  { rewrite Forall_forall in *. intros a Ha. apply HG.
    rewrite <- (firstn_skipn (Z.to_nat k) G). apply in_or_app. now right. }
  pose proof (fold_add_bounds _ Hskip 0) as Hlast.
  fold (total (skipn (Z.to_nat k) G)) in Hlast.
  rewrite length_skipn, HlenG in Hlast. lia.
Qed.

(** C1, amended: the per-sample ranking used by [precision_at] and
    [recall_at] is a permutation of the class indices that sorts the row's
    scores in descending order; the order among equal scores is the one the
    library's argsort returns (the source does not ask for a stable sort, so
    the lower class index does not necessarily come first).  Whatever that
    order, for every row, tied or not, the computed Precision@k of a sample
    is (number of its true labels among the k classes ranked first)/k and
    its Recall@k is the same count over the number of its true labels, the
    batch values being the means over the samples; the count lies between
    max(0, k - number of classes that are not true labels) and (number of
    true labels clipped to k).  The functions are pure: identical inputs
    give identical results. *)
Theorem ranking_any_tie_order (rank : list float -> list nat)
  (annotations : Tensor Z) (scores : Tensor float) (sizes : list Z) :
  sorts_descending rank ->
  wf annotations -> wf scores -> shape annotations = shape scores ->
  binary annotations -> valid_cutoffs (ncols scores) sizes ->
  Forall2
    (fun s p => Permutation p (seq 0 (length s))
                /\ StronglySorted (not_below s) p)
    (rows scores) (rows (argsort_by rank scores))
  /\ exists dp dr,
       precision_at_by rank annotations scores sizes = Ok dp
       /\ recall_at_by rank annotations scores sizes = Ok dr
       /\ forall k, In k sizes ->
            dict_get k dp = Some (precision_value rank annotations scores k)
            /\ dict_get k dr = Some (recall_value rank annotations scores k)
            /\ Forall
                 (fun p =>
                    Z.max 0 (k - (Z.of_nat (ncols scores) - total (fst p)))
                    <= top_k_relevant rank (fst p) (snd p) k
                    <= Z.min (total (fst p)) k)
                 (samples annotations scores).
Proof.
  intros Hrank Hwfa Hwf Hshape Hbin Hvalid. split.
  - unfold argsort_by. simpl.
    induction (rows scores) as [|s l IH]; simpl; constructor; auto;
      apply Hrank.
  - destruct (precision_at_valid_by rank _ _ _ Hrank Hwf Hshape Hvalid)
      as (dp & Hdp & Hgp).
    destruct (recall_at_valid_by rank _ _ _ Hrank Hwf Hshape Hvalid)
      as (dr & Hdr & Hgr).
    exists dp, dr. split; [exact Hdp|]. split; [exact Hdr|].
    intros k Hk. split; [now apply Hgp|]. split; [now apply Hgr|].
    apply Forall_forall. intros [r s] Hp.
    destruct (samples_wf annotations scores (r, s) Hwfa Hwf Hp) as [Hr Hs].
    simpl in Hr, Hs. cbn [fst snd]. rewrite <- Hs.
    destruct Hvalid as [_ Hall]. rewrite Forall_forall in Hall.
    specialize (Hall k Hk).
    injection Hshape as Hn Hc.
    apply top_k_relevant_bounds; auto; try lia.
    unfold binary in Hbin. rewrite Forall_forall in Hbin.
    apply Hbin. eapply in_combine_l; eauto.
Qed.

Lemma ranking_any_tie_order_witness :
  Forall2
    (fun s p => Permutation p (seq 0 (length s))
                /\ StronglySorted (not_below s) p)
    (rows S_tied) (rows (argsort_by argsort_row S_tied))
  /\ exists dp dr,
       precision_at_by argsort_row A_last_relevant S_tied [1; 3] = Ok dp
       /\ recall_at_by argsort_row A_last_relevant S_tied [1; 3] = Ok dr
       /\ forall k, In k [1; 3] ->
            dict_get k dp
            = Some (precision_value argsort_row A_last_relevant S_tied k)
            /\ dict_get k dr
               = Some (recall_value argsort_row A_last_relevant S_tied k)
            /\ Forall
                 (fun p =>
                    Z.max 0 (k - (Z.of_nat (ncols S_tied) - total (fst p)))
                    <= top_k_relevant argsort_row (fst p) (snd p) k
                    <= Z.min (total (fst p)) k)
                 (samples A_last_relevant S_tied).
Proof.
  apply (ranking_any_tie_order argsort_row A_last_relevant S_tied [1; 3]).
  - exact argsort_row_sorts_descending.
  - repeat constructor.
  - repeat constructor.
  - reflexivity.
  - unfold binary, A_last_relevant. simpl.
    repeat (apply Forall_cons || apply Forall_nil); auto.
  - split; [discriminate|].
    unfold S_tied. repeat constructor; simpl; lia.
Defined.
